(** * splitterPDF: the page classification and sheet-bucketing utilities

    A shallow embedding of [utils/pdfUtils]: [formatPageRanges],
    [analyzeImagePixelData] and [calculateSmartSplitStats], with the
    properties the specification states about them.

    Conventions of the embedding.
    - Page numbers and [totalPages] are JavaScript numbers holding integers;
      such a number is embedded as the integer it holds, in [Z].  Comparing
      two of them is comparing the integers.  In [calculateSmartSplitStats]
      every integer computed stays within the safe-integer range for inputs
      in that range, so [Z] arithmetic agrees with the IEEE arithmetic of the
      source there.  In [formatPageRanges] the sum [prev + 1] and the
      conversion of a number to a string are embedded as binary64 addition
      and as [Number::toString], so that the embedding follows the source
      also on the integers beyond 2^53 that a double can hold.
    - A [Uint8ClampedArray] is a [list Byte.byte]; reading past its end gives
      [undefined], embedded as [None].
    - The thresholds, [totalPixels] and the coverage ratio are binary64
      numbers, embedded as [spec_float] with precision 53 and [emax] 1024.
    - A [Set<number>] is the list of its elements in insertion order, a
      [Map<number, boolean>] is a [gmap Z bool]. *)

From Stdlib Require Import ZArith List Sorting.Sorted Strings.Byte Floats.SpecFloat.
From Stdlib Require Import Strings.Ascii.
From stdpp Require Import base numbers list sorting gmap strings pretty.
From Equations Require Import Equations.

Local Open Scope Z_scope.

(** ** Binary64 arithmetic of the source's [number] type *)

Module F64.

Definition prec : Z := 53.
Definition emax : Z := 1024.

(** The double nearest to an integer (exact for safe integers). *)
Definition of_Z (z : Z) : spec_float := binary_normalize prec emax z 0 false.

(** The integer a double holds, when it holds one. *)
Definition to_Z (x : spec_float) : option Z :=
  match x with
  | S754_zero _ => Some 0
  | S754_finite s m e =>
      if decide (0 ≤ e) then Some (cond_Zopp s (Zpos m * 2 ^ e))
      else if decide (Zpos m `mod` 2 ^ (- e) = 0)
           then Some (cond_Zopp s (Zpos m `div` 2 ^ (- e)))
           else None
  | _ => None
  end.

Definition zero : spec_float := S754_zero false.
Definition add : spec_float → spec_float → spec_float := SFadd prec emax.
Definition div : spec_float → spec_float → spec_float := SFdiv prec emax.

(** [x === y] on numbers. *)
Definition eqb (x y : spec_float) : bool := SFeqb x y.

(** [x > y] and [x >= y]; both are [false] when an operand is NaN. *)
Definition gt (x y : spec_float) : bool := SFltb y x.
Definition ge (x y : spec_float) : bool := SFleb y x.

End F64.

#[global] Instance spec_float_eq_dec : EqDecision spec_float.
Proof. solve_decision. Defined.

(** ** JavaScript built-ins used by the three functions *)

Module JS.

(** [Set.prototype.add]: insertion keeps the first occurrence only. *)
Definition Set_add (s : list Z) (x : Z) : list Z :=
  if decide (x ∈ s) then s else s ++ [x].

(** [new Set(iterable)]: the elements are added from left to right. *)
Definition new_Set (l : list Z) : list Z := foldl Set_add [] l.

(** [Array.prototype.sort((a, b) => a - b)]. *)
Definition sort_numeric (l : list Z) : list Z := merge_sort Z.le l.

(** [Array.prototype.join(sep)]. *)
Fixpoint join (sep : string) (l : list string) : string :=
  match l with
  | [] => ""
  | [x] => x
  | x :: l' => x +:+ sep +:+ join sep l'
  end.

(** [Number::toString(x)] picks integers [n], [k] and [s] with [k >= 1],
    [10^(k-1) <= s < 10^k] and [x] the double nearest to [s * 10^(n-k)],
    with [k] as small as possible; among several such [s] it picks the one
    for which [s * 10^(n-k)] is closest to [x], and the even one on a tie.
    For a double [x] holding the integer [z > 0] of [d] decimal digits,
    [shortest_digits x z (d - 1)] is that value [s * 10^(n-k)]: with [j]
    trailing zeros the candidates are the two multiples of [10^j] next to
    [z], and [j] goes down from [d - 1] until one of them has [x] as its
    nearest double, as [z] itself has. *)
Fixpoint shortest_digits (x : spec_float) (z : Z) (j : nat) : Z :=
  match j with
  | O => z
  | S j' =>
      let q := 10 ^ Z.of_nat j in
      let lo := z `div` q * q in
      let hi := lo + q in
      let lo_ok := bool_decide (F64.of_Z lo = x) in
      let hi_ok := bool_decide (F64.of_Z hi = x) in
      if lo_ok && hi_ok then
        if decide (z - lo < hi - z) then lo
        else if decide (hi - z < z - lo) then hi
        else if Z.even (z `div` q) then lo else hi
      else if lo_ok then lo
      else if hi_ok then hi
      else shortest_digits x z j'
  end.

(** The digits of a string without its trailing zeros. *)
Fixpoint strip_zeros (s : string) : string :=
  match s with
  | EmptyString => EmptyString
  | String c s' =>
      match strip_zeros s' with
      | EmptyString =>
          if decide (c = "0"%char) then EmptyString else String c EmptyString
      | t => String c t
      end
  end.

(** The exponent form of [Number::toString], used from 10^21 on: the first
    digit, the other digits, without trailing zeros, after a point when
    any is left, and the decimal exponent, as in [1e+21] and
    [1.1805916207174113e+21]. *)
Definition exponent_form (v : Z) : string :=
  match pretty v with
  | EmptyString => EmptyString
  | String c rest =>
      let fraction := strip_zeros rest in
      String c (if decide (fraction = EmptyString) then EmptyString
                else "." +:+ fraction)
      +:+ "e+" +:+ pretty (String.length rest)
  end.

(** [Number::toString] on a number that holds the integer [z], which the
    template literal [`${z}`] applies. *)
Definition Number_toString (z : Z) : string :=
  if decide (z = 0) then "0"
  else
    let a := Z.abs z in
    let v :=
      shortest_digits (F64.of_Z a) a (String.length (pretty a) - 1)%nat in
    (if decide (z < 0) then "-" else "")
    +:+ (if decide (v < 10 ^ 21) then pretty v else exponent_form v).

End JS.

(** ** formatPageRanges

    The elements of [pageNumbers] are numbers that hold integers, each given
    by the integer it holds, [F64.of_Z] giving back the double. *)

(** The template literal pushed for a closed range:
    [start === prev ? `${start}` : `${start}-${prev}`]. *)
Definition range_token (start prev : Z) : string :=
  if decide (start = prev) then JS.Number_toString start
  else JS.Number_toString start +:+ "-" +:+ JS.Number_toString prev.

(** The [for] loop over [sorted[1..]] followed by the final push; [rest] is
    the part of [sorted] not yet visited.  The test is
    [current === prev + 1], with the sum computed in binary64. *)
Fixpoint ranges_loop (rest : list Z) (start prev : Z) (ranges : list string)
  : list string :=
  match rest with
  | [] => ranges ++ [range_token start prev]
  | current :: rest' =>
      if F64.eqb (F64.of_Z current) (F64.add (F64.of_Z prev) (F64.of_Z 1))
      then ranges_loop rest' start current ranges
      else ranges_loop rest' current current (ranges ++ [range_token start prev])
  end.

Definition formatPageRanges (pageNumbers : list Z) : string :=
  if decide (length pageNumbers = 0%nat) then "None"
  else
    let sorted := JS.sort_numeric (JS.new_Set pageNumbers) in
    match sorted with
    | [] => "undefined"
    | s0 :: rest => JS.join ", " (ranges_loop rest s0 s0 [])
    end.

(** ** analyzeImagePixelData *)

Module Analysis.
Record t : Type := mk
  { isColor : bool; colorPixels : Z; totalPixels : spec_float }.
End Analysis.

(** The numeric value, in 0..255, of an array element. *)
Definition chan (b : Byte.byte) : Z := Z.of_N (Byte.to_N b).

(** [data[i]]: a channel value, or [None] for [undefined]. *)
Definition channel (data : list Byte.byte) (i : nat) : option Z :=
  chan <$> data !! i.

(** [Math.abs(x - y)] on channel reads; [None] is NaN, which an [undefined]
    operand produces and every later operation propagates. *)
Definition abs_diff (x y : option Z) : option Z :=
  match x, y with
  | Some a, Some b => Some (Z.abs (a - b))
  | _, _ => None
  end.

(** [Math.max(x, y, z)]: NaN as soon as one argument is NaN. *)
Definition Math_max (x y z : option Z) : option Z :=
  match x, y, z with
  | Some a, Some b, Some c => Some (Z.max a (Z.max b c))
  | _, _, _ => None
  end.

Definition maxDiff_at (data : list Byte.byte) (i : nat) : option Z :=
  let r := channel data i in
  let g := channel data (i + 1) in
  let b := channel data (i + 2) in
  Math_max (abs_diff r g) (abs_diff r b) (abs_diff g b).

(** [maxDiff > varianceThreshold]; a comparison with NaN is [false]. *)
Definition exceeds (maxDiff : option Z) (varianceThreshold : spec_float) : bool :=
  match maxDiff with
  | Some d => F64.gt (F64.of_Z d) varianceThreshold
  | None => false
  end.

(** [for (let i = 0; i < data.length; i += 4) { ... colorPixelCount++ ... }] *)
Equations? pixel_loop (data : list Byte.byte) (varianceThreshold : spec_float)
    (i : nat) (colorPixelCount : Z) : Z
    by wf (length data - i)%nat lt :=
  pixel_loop data varianceThreshold i colorPixelCount
    with decide (i < length data)%nat => {
    | left _ =>
        pixel_loop data varianceThreshold (i + 4)
          (if exceeds (maxDiff_at data i) varianceThreshold
           then colorPixelCount + 1 else colorPixelCount);
    | right _ => colorPixelCount }.
Proof. lia. Qed.

Definition analyzeImagePixelData (data : list Byte.byte)
    (varianceThreshold coverageThreshold : spec_float) : Analysis.t :=
  let colorPixelCount := pixel_loop data varianceThreshold 0 0 in
  let totalPixels := F64.div (F64.of_Z (Z.of_nat (length data))) (F64.of_Z 4) in
  let coverage := F64.div (F64.of_Z colorPixelCount) totalPixels in
  {| Analysis.isColor := F64.gt coverage coverageThreshold;
     Analysis.colorPixels := colorPixelCount;
     Analysis.totalPixels := totalPixels |}.

(** The default arguments [varianceThreshold = 20] and
    [coverageThreshold = 0.002]. *)
Definition default_varianceThreshold : spec_float := F64.of_Z 20.
Definition default_coverageThreshold : spec_float :=
  F64.div (F64.of_Z 2) (F64.of_Z 1000).

(** ** calculateSmartSplitStats *)

Module Page.
Record t : Type := mk { pageNumber : Z; isColor : bool }.
End Page.

Module Stats.
Record t : Type := mk
  { doubleColorSheets : list Z;
    doubleBWSheets : list Z;
    mixedColorPages : list Z;
    mixedBWPages : list Z }.
End Stats.

(** The four [Set<number>] locals of the function body. *)
Record sets : Type := mk_sets
  { doubleColorSet : list Z;
    doubleBWSet : list Z;
    mixedColorSet : list Z;
    mixedBWSet : list Z }.

Definition empty_sets : sets := mk_sets [] [] [] [].

Definition add_doubleColor (x : Z) (s : sets) : sets :=
  mk_sets (JS.Set_add (doubleColorSet s) x) (doubleBWSet s)
          (mixedColorSet s) (mixedBWSet s).
Definition add_doubleBW (x : Z) (s : sets) : sets :=
  mk_sets (doubleColorSet s) (JS.Set_add (doubleBWSet s) x)
          (mixedColorSet s) (mixedBWSet s).
Definition add_mixedColor (x : Z) (s : sets) : sets :=
  mk_sets (doubleColorSet s) (doubleBWSet s)
          (JS.Set_add (mixedColorSet s) x) (mixedBWSet s).
Definition add_mixedBW (x : Z) (s : sets) : sets :=
  mk_sets (doubleColorSet s) (doubleBWSet s)
          (mixedColorSet s) (JS.Set_add (mixedBWSet s) x).

(** [allPagesStatus.forEach(p => pageMap.set(p.pageNumber, p.isColor))] *)
Definition build_pageMap (allPagesStatus : list Page.t) : gmap Z bool :=
  foldl (λ m p, <[Page.pageNumber p := Page.isColor p]> m) ∅ allPagesStatus.

(** [pageMap.get(page) || false] *)
Definition get_or_false (pageMap : gmap Z bool) (page : Z) : bool :=
  default false (pageMap !! page).

(** The body of the sheet loop for the sheet whose odd page is [i]. *)
Definition sheet_body (pageMap : gmap Z bool) (totalPages i : Z) (s : sets)
  : sets :=
  let pageA := i in
  let pageB := i + 1 in
  let isAColor := get_or_false pageMap pageA in
  let hasB := bool_decide (pageB ≤ totalPages) in
  let isBColor := if hasB then get_or_false pageMap pageB else false in
  if negb hasB then
    if isAColor then add_mixedColor pageA s else add_mixedBW pageA s
  else if isAColor && isBColor then
    add_doubleColor pageB (add_doubleColor pageA s)
  else if negb isAColor && negb isBColor then
    add_doubleBW pageB (add_doubleBW pageA s)
  else
    let s := if isAColor then add_mixedColor pageA s else add_mixedBW pageA s in
    if isBColor then add_mixedColor pageB s else add_mixedBW pageB s.

(** [for (let i = 1; i <= totalPages; i += 2) { ... }] *)
Equations? sheets_loop (pageMap : gmap Z bool) (totalPages i : Z) (s : sets)
    : sets by wf (Z.to_nat (totalPages + 1 - i)) lt :=
  sheets_loop pageMap totalPages i s with decide (i ≤ totalPages) => {
    | left _ =>
        sheets_loop pageMap totalPages (i + 2)
          (sheet_body pageMap totalPages i s);
    | right _ => s }.
Proof. lia. Qed.

Definition calculateSmartSplitStats (allPagesStatus : list Page.t)
    (totalPages : Z) : Stats.t :=
  let pageMap := build_pageMap allPagesStatus in
  let s := sheets_loop pageMap totalPages 1 empty_sets in
  {| Stats.doubleColorSheets := JS.sort_numeric (doubleColorSet s);
     Stats.doubleBWSheets := JS.sort_numeric (doubleBWSet s);
     Stats.mixedColorPages := JS.sort_numeric (mixedColorSet s);
     Stats.mixedBWPages := JS.sort_numeric (mixedBWSet s) |}.

(** ** Completion of a call

    None of the three bodies contains a [throw], and none of the built-ins
    they call can throw on the values involved (an out-of-range typed-array
    read is [undefined], arithmetic on [undefined] is NaN, [Map.get] of an
    absent key is [undefined]).  A call therefore always completes
    normally; [outcome] makes that observable next to the two error kinds
    the specification names. *)

Inductive error : Type := InvalidBufferError | InvalidPageNumberError.

Inductive outcome (A : Type) : Type :=
| Returns (a : A)
| Throws (e : error).
Arguments Returns {A} a.
Arguments Throws {A} e.

Definition classify (data : list Byte.byte)
    (varianceThreshold coverageThreshold : spec_float) : outcome Analysis.t :=
  Returns (analyzeImagePixelData data varianceThreshold coverageThreshold).

Definition bucketize (pages : list Page.t) (totalPages : Z) : outcome Stats.t :=
  Returns (calculateSmartSplitStats pages totalPages).

(** ** Specification-level notions *)

(** The safe integers, those of absolute value at most 2^53 - 1
    ([Number.isSafeInteger]). *)
Definition safe_integer (z : Z) : Prop := - 2 ^ 53 < z < 2 ^ 53.

(** A decimal digit, and the characters a printed integer starts with. *)
Definition decimal_digit (c : ascii) : Prop :=
  (48 ≤ nat_of_ascii c ≤ 57)%nat.

Definition sign_or_digit (c : ascii) : Prop := c = "-"%char ∨ decimal_digit c.

(** A run [(s, e)] stands for the consecutive integers [s, s+1, ..., e]. *)
Definition run : Type := Z * Z.

Definition run_token (r : run) : string :=
  if decide (r.1 = r.2) then pretty r.1 else pretty r.1 +:+ "-" +:+ pretty r.2.

(** [r2] starts after [r1] ends, leaving a gap: the two cannot be merged. *)
Definition run_before (r1 r2 : run) : Prop := r1.2 + 1 < r2.1.

Definition covers (rs : list run) (x : Z) : Prop :=
  ∃ r, r ∈ rs ∧ r.1 ≤ x ≤ r.2.

(** [rs] is the ascending list of the maximal runs of consecutive integers
    of the collection [l]. *)
Record maximal_runs (l : list Z) (rs : list run) : Prop := mk_maximal_runs
  { runs_inhabited : Forall (λ r, r.1 ≤ r.2) rs;
    runs_separated : Sorted run_before rs;
    runs_cover : ∀ x, x ∈ l ↔ covers rs x }.

(** The loop of [formatPageRanges] as it runs on safe integers, where its
    test is [current = prev + 1], with the runs kept as pairs. *)
Fixpoint runs_loop (rest : list Z) (start prev : Z) (acc : list run)
  : list run :=
  match rest with
  | [] => acc ++ [(start, prev)]
  | current :: rest' =>
      if decide (current = prev + 1)
      then runs_loop rest' start current acc
      else runs_loop rest' current current (acc ++ [(start, prev)])
  end.

(** A pixel as the classifier sees it: its R, G and B values. *)
Definition pixel : Type := (Z * Z * Z)%type.

(** The pixels of an RGBA buffer (alpha dropped); bytes after the last
    complete group of four belong to no pixel. *)
Fixpoint pixels (data : list Byte.byte) : list pixel :=
  match data with
  | r :: g :: b :: _ :: rest => (chan r, chan g, chan b) :: pixels rest
  | _ => []
  end.

(** The groups for which the loop obtains three channel values: the pixels
    and, when three bytes trail the last complete group, those three. *)
Fixpoint read_groups (data : list Byte.byte) : list pixel :=
  match data with
  | r :: g :: b :: _ :: rest => (chan r, chan g, chan b) :: read_groups rest
  | [r; g; b] => [(chan r, chan g, chan b)]
  | _ => []
  end.

Definition maxDiff (px : pixel) : Z :=
  let '(r, g, b) := px in
  Z.max (Z.abs (r - g)) (Z.max (Z.abs (r - b)) (Z.abs (g - b))).

Definition is_color_pixel (varianceThreshold : spec_float) (px : pixel) : bool :=
  F64.gt (F64.of_Z (maxDiff px)) varianceThreshold.

Fixpoint count_color (varianceThreshold : spec_float) (pxs : list pixel) : Z :=
  match pxs with
  | [] => 0
  | px :: pxs' =>
      (if is_color_pixel varianceThreshold px then 1 else 0)
      + count_color varianceThreshold pxs'
  end.

Definition gray (px : pixel) : Prop := let '(r, g, b) := px in r = g ∧ g = b.

(** The four output buckets, and the bucket a page belongs to given the
    effective colour status of every page. *)
Inductive bucket : Type := DoubleColor | DoubleBW | MixedColor | MixedBW.

(** The odd page of the sheet that carries page [p]. *)
Definition sheet_front (p : Z) : Z := if Z.odd p then p else p - 1.

Definition bucket_of (color : Z → bool) (totalPages p : Z) : bucket :=
  let a := sheet_front p in
  let b := a + 1 in
  if decide (totalPages < b) then (if color p then MixedColor else MixedBW)
  else if color a && color b then DoubleColor
  else if negb (color a) && negb (color b) then DoubleBW
  else if color p then MixedColor else MixedBW.

(** The effective status of page [p]: the [isColor] of the last record
    supplied for [p], B&W when there is none. *)
Definition status_of (pages : list Page.t) (p : Z) : bool :=
  default false
    (Page.isColor <$> last (filter (λ e, Page.pageNumber e = p) pages)).

Definition set_of (k : bucket) (s : sets) : list Z :=
  match k with
  | DoubleColor => doubleColorSet s
  | DoubleBW => doubleBWSet s
  | MixedColor => mixedColorSet s
  | MixedBW => mixedBWSet s
  end.

Definition pages_of (k : bucket) (r : Stats.t) : list Z :=
  match k with
  | DoubleColor => Stats.doubleColorSheets r
  | DoubleBW => Stats.doubleBWSheets r
  | MixedColor => Stats.mixedColorPages r
  | MixedBW => Stats.mixedBWPages r
  end.

Definition add_to (k : bucket) (x : Z) (s : sets) : sets :=
  match k with
  | DoubleColor => add_doubleColor x s
  | DoubleBW => add_doubleBW x s
  | MixedColor => add_mixedColor x s
  | MixedBW => add_mixedBW x s
  end.

(** The inputs the specification's error taxonomy calls invalid for
    [bucketize]: a zero or negative page number, or a page number supplied
    twice. *)
Definition invalid_page_numbers (pages : list Page.t) : Prop :=
  (∃ e, e ∈ pages ∧ Page.pageNumber e ≤ 0)
  ∨ ¬ NoDup (Page.pageNumber <$> pages).

(** The invariant of the sheet loop: before the iteration for odd page [i]
    the sets hold exactly the pages below [i], each in its bucket, once. *)
Definition filed_below (color : Z → bool) (totalPages i : Z) (s : sets)
  : Prop :=
  (∀ k p, p ∈ set_of k s ↔
          1 ≤ p < i ∧ p ≤ totalPages ∧ bucket_of color totalPages p = k)
  ∧ ∀ k, NoDup (set_of k s).

(** Runs that are inhabited, ascending and pairwise separated by a gap. *)
Definition well_formed_runs (rs : list run) : Prop :=
  Forall (λ r, r.1 ≤ r.2) rs ∧ Sorted run_before rs.

(** The number of binary digits of a mantissa. *)
Definition digits (m : positive) : Z := Zpos (digits2_pos m).

(** ** The page list kept by the analyzer hook (hooks/usePDFAnalyzer)

    [setPages] is only ever called with an updater; each updater is
    embedded as the function from the previous list to the next one. *)

Module PageData.
Record t : Type := mk
  { pageNumber : Z;
    thumbnailUrl : string;
    isColorDetected : bool;
    isColorUserForced : option bool;
    pixelCount : spec_float;
    colorPixelCount : Z }.
End PageData.

(** [p.isColorUserForced !== null ? p.isColorUserForced : p.isColorDetected],
    the expression the hook, the app, the grid and the modal all use. *)
Definition effective_color (p : PageData.t) : bool :=
  match PageData.isColorUserForced p with
  | Some forced => forced
  | None => PageData.isColorDetected p
  end.

(** [{ ...p, isColorUserForced: v }] *)
Definition with_isColorUserForced (p : PageData.t) (v : bool) : PageData.t :=
  {| PageData.pageNumber := PageData.pageNumber p;
     PageData.thumbnailUrl := PageData.thumbnailUrl p;
     PageData.isColorDetected := PageData.isColorDetected p;
     PageData.isColorUserForced := Some v;
     PageData.pixelCount := PageData.pixelCount p;
     PageData.colorPixelCount := PageData.colorPixelCount p |}.

Definition togglePageStatus (pageNumber : Z) (prevPages : list PageData.t)
  : list PageData.t :=
  (λ p, if decide (PageData.pageNumber p ≠ pageNumber) then p
        else
          let isCurrentlyColor := effective_color p in
          with_isColorUserForced p (negb isCurrentlyColor)) <$> prevPages.

Definition batchUpdatePageStatus (pageNumbers : list Z) (isColor : bool)
    (prevPages : list PageData.t) : list PageData.t :=
  let idsToUpdate := JS.new_Set pageNumbers in
  (λ p, if decide (PageData.pageNumber p ∈ idsToUpdate)
        then with_isColorUserForced p isColor
        else p) <$> prevPages.

(** The record [analyzeFile] appends for page [i].  The pixel data of the
    rendered canvas and the thumbnail URL come from the browser; the
    thresholds are the literals [32] and [0.002] of the call. *)
Definition analyzed_page (i : Z) (data : list Byte.byte) (thumbnailUrl : string)
  : PageData.t :=
  let analysis :=
    analyzeImagePixelData data (F64.of_Z 32) (F64.div (F64.of_Z 2) (F64.of_Z 1000)) in
  {| PageData.pageNumber := i;
     PageData.thumbnailUrl := thumbnailUrl;
     PageData.isColorDetected := Analysis.isColor analysis;
     PageData.isColorUserForced := None;
     PageData.pixelCount := Analysis.totalPixels analysis;
     PageData.colorPixelCount := Analysis.colorPixels analysis |}.

(** The page loop of [analyzeFile], [for (let i = 1; i <= numPages; i++)],
    as one call acts on the page list.  [abort] is [abortRef.current] at
    the test that opens the iteration for page [i].  [iterations] holds, in
    page order and for each iteration that gets as far as its [setPages],
    the pixel data and the thumbnail URL the browser produced, and whether
    [resetAnalysis] ran while the iteration waited at one of its [await]s:
    it then set [abortRef.current] and emptied the list with [setPages([])]
    before the iteration ran [setPages(prev => [...prev, record])].  The
    loop is left at the test, or where the list ends: [numPages] is reached
    or an iteration during which no reset ran throws.  No other call of
    [analyzeFile] starts and no page is toggled before the loop is left. *)
Fixpoint analyze_loop (i : Z) (abort : bool)
    (iterations : list (list Byte.byte * string * bool))
    (pages : list PageData.t) : list PageData.t :=
  match iterations with
  | [] => pages
  | (data, thumbnailUrl, reset) :: rest =>
      if abort then pages
      else
        let pages := if reset then [] else pages in
        analyze_loop (i + 1) reset rest
          (pages ++ [analyzed_page i data thumbnailUrl])
  end.

(** [abortRef.current = false] and [setPages([])], then the two [await]s
    that load the document, during which [resetAnalysis] may run ([reset]),
    then the loop. *)
Definition analyzeFile (reset : bool)
    (iterations : list (list Byte.byte * string * bool)) : list PageData.t :=
  analyze_loop 1 reset iterations [].

(** ** The app component (App) *)

Inductive ViewCategory : Type :=
| view_all | view_mixed_color | view_mixed_bw | view_double_color | view_double_bw.

Definition simplifiedPages (pages : list PageData.t) : list Page.t :=
  (λ p, {| Page.pageNumber := PageData.pageNumber p;
           Page.isColor := effective_color p |}) <$> pages.

Definition smartStats (pages : list PageData.t) : Stats.t :=
  calculateSmartSplitStats (simplifiedPages pages) (Z.of_nat (length pages)).

(** The [switch] of [filteredPages]; ['all'] returns before it. *)
Definition targetPageNumbers (stats : Stats.t) (viewCategory : ViewCategory)
  : list Z :=
  match viewCategory with
  | view_all => []
  | view_mixed_color => Stats.mixedColorPages stats
  | view_mixed_bw => Stats.mixedBWPages stats
  | view_double_color => Stats.doubleColorSheets stats
  | view_double_bw => Stats.doubleBWSheets stats
  end.

Definition filteredPages (pages : list PageData.t) (viewCategory : ViewCategory)
  : list PageData.t :=
  match viewCategory with
  | view_all => pages
  | _ =>
      let targetSet :=
        JS.new_Set (targetPageNumbers (smartStats pages) viewCategory) in
      filter (λ p, PageData.pageNumber p ∈ targetSet) pages
  end.

(** [Array.prototype.findIndex]: the first index that satisfies the
    predicate, [-1] when there is none. *)
Definition findIndex {A} (P : A → Prop) `{!∀ x, Decision (P x)} (l : list A) : Z :=
  match list_find P l with
  | Some (i, _) => Z.of_nat i
  | None => -1
  end.

(** [arr[i]] for an integer index: [undefined] outside the array. *)
Definition array_get {A} (l : list A) (i : Z) : option A :=
  if decide (0 ≤ i) then l !! Z.to_nat i else None.

(** [p.pageNumber === zoomedPageNumber], where the state is a number or
    [null]. *)
Definition is_zoomed (zoomedPageNumber : option Z) (p : PageData.t) : Prop :=
  zoomedPageNumber = Some (PageData.pageNumber p).

#[global] Instance is_zoomed_dec zoomedPageNumber p :
  Decision (is_zoomed zoomedPageNumber p).
Proof. unfold is_zoomed. apply _. Defined.

(** The two zoom handlers return the next value of [zoomedPageNumber];
    [None] stands for the [TypeError] that reading [.pageNumber] of
    [undefined] raises. *)
Definition handleNextZoom (filteredPages : list PageData.t)
    (zoomedPageNumber : option Z) : option (option Z) :=
  let currentIndex := findIndex (is_zoomed zoomedPageNumber) filteredPages in
  if decide (currentIndex ≠ -1
             ∧ currentIndex < Z.of_nat (length filteredPages) - 1)
  then (λ p, Some (PageData.pageNumber p))
         <$> array_get filteredPages (currentIndex + 1)
  else Some zoomedPageNumber.

Definition handlePrevZoom (filteredPages : list PageData.t)
    (zoomedPageNumber : option Z) : option (option Z) :=
  let currentIndex := findIndex (is_zoomed zoomedPageNumber) filteredPages in
  if decide (currentIndex > 0)
  then (λ p, Some (PageData.pageNumber p))
         <$> array_get filteredPages (currentIndex - 1)
  else Some zoomedPageNumber.

Definition hasNextZoom (filteredPages : list PageData.t)
    (zoomedPageNumber : option Z) : bool :=
  bool_decide (zoomedPageNumber ≠ None)
  && bool_decide (findIndex (is_zoomed zoomedPageNumber) filteredPages
                  < Z.of_nat (length filteredPages) - 1).

Definition hasPrevZoom (filteredPages : list PageData.t)
    (zoomedPageNumber : option Z) : bool :=
  bool_decide (zoomedPageNumber ≠ None)
  && bool_decide (findIndex (is_zoomed zoomedPageNumber) filteredPages > 0).

(** ** The sidebar (components/Sidebar) *)

(** The [count] field of [displayData[category]]. *)
Definition displayData_count (pages : list PageData.t) (stats : Stats.t)
    (category : ViewCategory) : nat :=
  match category with
  | view_all => length pages
  | _ => length (targetPageNumbers stats category)
  end.

(** ** The thumbnail grid (components/ThumbnailGrid) *)

(** The component state: the [selectedPages] set and [lastSelectedPageRef]. *)
Record selection : Type := mk_selection
  { selectedPages : list Z; lastSelectedPage : option Z }.

Record MouseEvent : Type := mk_MouseEvent
  { shiftKey : bool; ctrlKey : bool; metaKey : bool }.

(** [Set.prototype.delete] *)
Definition Set_delete (s : list Z) (x : Z) : list Z := filter (λ y, y ≠ x) s.

(** [for (let i = start; i <= end; i++)
       newSelection.add(displayedPages[i].pageNumber)];
    [None] is the [TypeError] of an out-of-range read. *)
Equations? select_range (displayedPages : list PageData.t) (end_ i : Z)
    (newSelection : list Z) : option (list Z)
    by wf (Z.to_nat (end_ + 1 - i)) lt :=
  select_range displayedPages end_ i newSelection with decide (i ≤ end_) => {
    | left _ with array_get displayedPages i => {
      | Some p =>
          select_range displayedPages end_ (i + 1)
            (JS.Set_add newSelection (PageData.pageNumber p));
      | None => None };
    | right _ => Some newSelection }.
Proof. lia. Qed.

(** [handlePageClick] returns the next component state and the page number
    passed to [onTogglePage], if it is called.  Clearing the browser's text
    selection on a shift-click has no part in the state. *)
Definition handlePageClick (displayedPages : list PageData.t) (st : selection)
    (pageNumber : Z) (event : MouseEvent) : option (selection * option Z) :=
  let ctrl_or_plain :=
    if ctrlKey event || metaKey event then
      let newSelection :=
        if decide (pageNumber ∈ selectedPages st)
        then Set_delete (selectedPages st) pageNumber
        else JS.Set_add (selectedPages st) pageNumber in
      Some (mk_selection newSelection (Some pageNumber), None)
    else
      Some (mk_selection [] (Some pageNumber), Some pageNumber) in
  if shiftKey event && bool_decide (lastSelectedPage st ≠ None) then
    let currentIndex :=
      findIndex (λ p, PageData.pageNumber p = pageNumber) displayedPages in
    let lastIndex :=
      findIndex (is_zoomed (lastSelectedPage st)) displayedPages in
    if decide (currentIndex ≠ -1 ∧ lastIndex ≠ -1) then
      let start := Z.min currentIndex lastIndex in
      let end_ := Z.max currentIndex lastIndex in
      (λ newSelection, (mk_selection newSelection (Some pageNumber), None))
        <$> select_range displayedPages end_ start (selectedPages st)
    else ctrl_or_plain
  else ctrl_or_plain.

Definition handleSelectAllInView (displayedPages : list PageData.t)
    (st : selection) : selection :=
  mk_selection (foldl JS.Set_add [] (PageData.pageNumber <$> displayedPages))
    (lastSelectedPage st).

(** [handleBatchUpdate] returns the next component state and the arguments
    of its [onBatchUpdate] call. *)
Definition handleBatchUpdate (st : selection) (isColor : bool)
  : selection * (list Z * bool) :=
  (mk_selection [] None, (selectedPages st, isColor)).

(** ** Notions used to state the properties of the components *)

(** The page list of a document whose pages are numbered [1, 2, ...] in
    order, as [analyzeFile] builds it when [resetAnalysis] does not run
    meanwhile. *)
Definition well_numbered (pages : list PageData.t) : Prop :=
  PageData.pageNumber <$> pages = seqZ 1 (Z.of_nat (length pages)).

(** * Properties *)

(** ** The built-ins *)

Lemma Set_add_elem_of s x y : y ∈ JS.Set_add s x ↔ y ∈ s ∨ y = x.
Proof.
  unfold JS.Set_add. case_decide as Hx.
  - split; [by left | intros [?| ->]; done].
  - rewrite elem_of_app, list_elem_of_singleton. done.
Qed.

Lemma Set_add_NoDup s x : NoDup s → NoDup (JS.Set_add s x).
Proof.
  intros Hs. unfold JS.Set_add. case_decide as Hx; [done|].
  apply NoDup_app. split_and!; [done| |apply NoDup_singleton].
  intros y Hy ->%list_elem_of_singleton. done.
Qed.

Lemma foldl_Set_add_elem_of l s y :
  y ∈ foldl JS.Set_add s l ↔ y ∈ s ∨ y ∈ l.
Proof.
  revert s. induction l as [|x l IH]; intros s; simpl.
  - rewrite elem_of_nil. tauto.
  - rewrite IH, Set_add_elem_of, elem_of_cons. tauto.
Qed.

Lemma foldl_Set_add_NoDup l s : NoDup s → NoDup (foldl JS.Set_add s l).
Proof.
  revert s. induction l as [|x l IH]; intros s Hs; simpl; [done|].
  by apply IH, Set_add_NoDup.
Qed.

Lemma new_Set_elem_of l y : y ∈ JS.new_Set l ↔ y ∈ l.
Proof.
  unfold JS.new_Set. rewrite foldl_Set_add_elem_of, elem_of_nil. tauto.
Qed.

Lemma new_Set_NoDup l : NoDup (JS.new_Set l).
Proof. apply foldl_Set_add_NoDup, NoDup_nil_2. Qed.

Lemma sort_numeric_elem_of l y : y ∈ JS.sort_numeric l ↔ y ∈ l.
Proof. unfold JS.sort_numeric. by rewrite merge_sort_Permutation. Qed.

Lemma StronglySorted_le_lt (l : list Z) :
  StronglySorted Z.le l → NoDup l → StronglySorted Z.lt l.
Proof.
  induction 1 as [|x l Hl IH Hx]; intros Hnd; [constructor|].
  apply NoDup_cons in Hnd as [Hx' Hnd].
  constructor; [by apply IH|].
  rewrite Forall_forall in Hx |- *. intros y Hy.
  specialize (Hx y Hy). assert (x ≠ y) by (intros ->; done). lia.
Qed.

(** Sorting a duplicate-free array gives a strictly ascending one. *)
Lemma sort_numeric_strict l :
  NoDup l → StronglySorted Z.lt (JS.sort_numeric l).
Proof.
  intros Hnd. apply StronglySorted_le_lt.
  - apply (StronglySorted_merge_sort Z.le).
  - unfold JS.sort_numeric. by rewrite merge_sort_Permutation.
Qed.

Lemma strict_sorted_NoDup (l : list Z) : StronglySorted Z.lt l → NoDup l.
Proof.
  induction 1 as [|x l Hl IH Hx]; constructor; [|done].
  intros Hin. rewrite Forall_forall in Hx. specialize (Hx x Hin). lia.
Qed.

(** A strictly ascending list is determined by its elements. *)
Lemma strict_sorted_ext (l1 l2 : list Z) :
  StronglySorted Z.lt l1 → StronglySorted Z.lt l2 →
  (∀ x, x ∈ l1 ↔ x ∈ l2) → l1 = l2.
Proof.
  intros H1 H2 Hel.
  apply (StronglySorted_unique_strong Z.lt); try done.
  - intros x y _ _ Hxy Hyx. lia.
  - by apply NoDup_Permutation; [apply strict_sorted_NoDup..|].
Qed.

(** ** Binary64 arithmetic on integers *)

Lemma iter_xO_spec p s :
  Zpos (Pos.iter xO p s) = Zpos p * 2 ^ Zpos s ∧
  digits (Pos.iter xO p s) = digits p + Zpos s.
Proof.
  induction s as [|s IH] using Pos.peano_ind.
  - simpl. unfold digits. simpl. lia.
  - rewrite Pos.iter_succ. destruct IH as [IH1 IH2]. unfold digits in *.
    rewrite Pos2Z.inj_succ, Z.pow_succ_r by lia. split.
    + rewrite Pos2Z.inj_xO, IH1. lia.
    + change (digits2_pos (Pos.iter xO p s)~0)
        with (Pos.succ (digits2_pos (Pos.iter xO p s))).
      rewrite Pos2Z.inj_succ, IH2. lia.
Qed.

Lemma digits_lower p : 2 ^ (digits p - 1) ≤ Zpos p.
Proof.
  unfold digits. induction p as [p IH|p IH|]; simpl digits2_pos; [| |done].
  - rewrite Pos2Z.inj_succ, Pos2Z.inj_xI.
    replace (Z.succ (Z.pos (digits2_pos p)) - 1)
      with (Z.succ (Z.pos (digits2_pos p) - 1)) by lia.
    rewrite Z.pow_succ_r by lia.  lia.
  - rewrite Pos2Z.inj_succ. change (Z.pos p~0) with (2 * Z.pos p).
    replace (Z.succ (Z.pos (digits2_pos p)) - 1)
      with (Z.succ (Z.pos (digits2_pos p) - 1)) by lia.
    rewrite Z.pow_succ_r by lia. lia.
Qed.

Lemma digits_upper p : Zpos p < 2 ^ digits p.
Proof.
  unfold digits. induction p as [p IH|p IH|]; simpl digits2_pos; [| |done].
  - rewrite Pos2Z.inj_succ, Z.pow_succ_r by lia.
    change (Z.pos p~1) with (2 * Z.pos p + 1). lia.
  - rewrite Pos2Z.inj_succ, Z.pow_succ_r by lia.
    change (Z.pos p~0) with (2 * Z.pos p). lia.
Qed.

Lemma digits_le p n : 0 ≤ n → Zpos p < 2 ^ n → digits p ≤ n.
Proof.
  intros Hn Hp. destruct (Z.lt_ge_cases n (digits p)) as [Hbig|]; [|done].
  exfalso. pose proof (digits_lower p) as Hlow.
  assert (2 ^ n ≤ 2 ^ (digits p - 1)) by (apply Z.pow_le_mono_r; lia).
  lia.
Qed.

Lemma digits_gt p n : 0 ≤ n → 2 ^ n ≤ Zpos p → n < digits p.
Proof.
  intros Hn Hp. destruct (Z.lt_ge_cases n (digits p)) as [|Hsmall]; [done|].
  exfalso. pose proof (digits_upper p) as Hup.
  assert (2 ^ digits p ≤ 2 ^ n)
    by (apply Z.pow_le_mono_r; unfold digits in *; lia).
  lia.
Qed.

Lemma binary_round_aux_exact sx m e :
  digits m = 53 → -1074 ≤ e ≤ 971 →
  binary_round_aux F64.prec F64.emax sx (Zpos m) e loc_Exact
  = S754_finite sx m e.
Proof.
  unfold digits. intros Hd He.
  unfold binary_round_aux, shr_fexp, fexp, emin, F64.prec, F64.emax.
  simpl Zdigits2. rewrite Hd.
  replace (Z.max (53 + e - 53) (3 - 1024 - 53) - e) with 0 by lia.
  simpl. rewrite Hd.
  replace (Z.max (53 + e - 53) (3 - 1024 - 53) - e) with 0 by lia.
  simpl. change (1024 - 53) with 971.
  destruct (Z.leb_spec e 971); [done|lia].
Qed.

Lemma binary_round_aux_even sx m e :
  digits m = 53 → -1075 ≤ e ≤ 970 →
  binary_round_aux F64.prec F64.emax sx (Zpos m~0) e loc_Exact
  = S754_finite sx m (e + 1).
Proof.
  unfold digits. intros Hd He.
  unfold binary_round_aux, shr_fexp, fexp, emin, F64.prec, F64.emax.
  simpl Zdigits2. rewrite Pos2Z.inj_succ, Hd.
  replace (Z.max (Z.succ 53 + e - 53) (3 - 1024 - 53) - e) with 1 by lia.
  simpl. rewrite Hd.
  replace (Z.max (53 + (e + 1) - 53) (3 - 1024 - 53) - (e + 1)) with 0 by lia.
  simpl. change (1024 - 53) with 971.
  destruct (Z.leb_spec (e + 1) 971); [done|lia].
Qed.

(** Shifting out zero bits loses nothing. *)
Lemma iter_pos_shr_1 s : ∀ m,
  SpecFloat.iter_pos shr_1 s
    {| shr_m := Zpos (Pos.iter xO m s); shr_r := false; shr_s := false |}
  = {| shr_m := Zpos m; shr_r := false; shr_s := false |}.
Proof.
  induction s as [s IH|s IH|]; intros m; simpl.
  - by rewrite !IH.
  - by rewrite !IH.
  - done.
Qed.

Lemma binary_round_aux_shift sx m s e :
  digits m = 53 → -1074 ≤ e + Zpos s ≤ 971 →
  binary_round_aux F64.prec F64.emax sx (Zpos (Pos.iter xO m s)) e loc_Exact
  = S754_finite sx m (e + Zpos s).
Proof.
  intros Hd He. destruct (iter_xO_spec m s) as [_ Hdig].
  unfold digits in Hd, Hdig.
  unfold binary_round_aux, shr_fexp, fexp, emin, F64.prec, F64.emax.
  simpl Zdigits2. rewrite Hdig, Hd.
  replace (Z.max (53 + Z.pos s + e - 53) (3 - 1024 - 53) - e) with (Zpos s)
    by lia.
  cbn [shr shr_record_of_loc]. rewrite iter_pos_shr_1.
  cbn [shr_m loc_of_shr_record round_nearest_even Zdigits2]. rewrite Hd.
  replace (Z.max (53 + (e + Z.pos s) - 53) (3 - 1024 - 53) - (e + Z.pos s))
    with 0 by lia.
  cbn [shr shr_m]. change (1024 - 53) with 971.
  destruct (Z.leb_spec (e + Z.pos s) 971); [done|lia].
Qed.

(** Rounding an integer of at most 53 bits only normalizes it. *)
Lemma binary_round_small sx p :
  digits p ≤ 53 →
  ∃ m, binary_round F64.prec F64.emax sx p 0
       = S754_finite sx m (digits p - 53) ∧
       digits m = 53 ∧ Zpos m = Zpos p * 2 ^ (53 - digits p).
Proof.
  intros Hd. unfold binary_round, shl_align.
  unfold fexp at 1 2, emin, F64.prec, F64.emax. fold (digits p).
  replace (Z.max (digits p + 0 - 53) (3 - 1024 - 53)) with (digits p - 53)
    by (unfold digits in *; lia).
  destruct (digits p - 53 - 0) as [|s|s] eqn:Hs.
  - exists p. split_and!.
    + replace (digits p - 53) with 0 by lia.
      apply binary_round_aux_exact; [lia|lia].
    + lia.
    + replace (53 - digits p) with 0 by lia. lia.
  - lia.
  - destruct (iter_xO_spec p s) as [Hv Hdig].
    exists (Pos.iter xO p s). split_and!.
    + apply binary_round_aux_exact; [lia|unfold digits in *; lia].
    + lia.
    + rewrite Hv. f_equal. f_equal. lia.
Qed.

Lemma of_Z_pos p :
  digits p ≤ 53 →
  ∃ m, F64.of_Z (Zpos p) = S754_finite false m (digits p - 53) ∧
       digits m = 53 ∧ Zpos m = Zpos p * 2 ^ (53 - digits p).
Proof. apply (binary_round_small false). Qed.

(** Rounding [q * 2^52] at exponent [-52] is rounding [q]. *)
Lemma binary_round_scaled sx q :
  digits q ≤ 53 →
  binary_round F64.prec F64.emax sx (Pos.iter xO q 52) (-52)
  = binary_round F64.prec F64.emax sx q 0.
Proof.
  intros Hd. destruct (binary_round_small sx q Hd) as (m & -> & Hdm & Hm).
  assert (1 ≤ digits q) as Hd1 by (unfold digits; lia).
  destruct (iter_xO_spec q 52) as [Hv Hdig].
  unfold binary_round, shl_align.
  unfold fexp at 1 2, emin, F64.prec, F64.emax.
  fold (digits (Pos.iter xO q 52)). rewrite Hdig.
  replace (Z.max (digits q + 52 + -52 - 53) (3 - 1024 - 53))
    with (digits q - 53) by lia.
  destruct (digits q - 53 - -52) as [|s|s] eqn:Hs; [| |lia].
  - assert (Pos.iter xO q 52 = m) as ->.
    { apply Pos2Z.inj. rewrite Hv, Hm. f_equal. f_equal. lia. }
    rewrite binary_round_aux_exact by (done || lia). f_equal. lia.
  - assert (Pos.iter xO q 52 = Pos.iter xO m s) as ->.
    { apply Pos2Z.inj. destruct (iter_xO_spec m s) as [Hv' _].
      rewrite Hv, Hv', Hm, <- Z.mul_assoc, <- Z.pow_add_r by lia.
      f_equal. f_equal. lia. }
    rewrite binary_round_aux_shift by (done || lia). f_equal. lia.
Qed.

Lemma binary_normalize_scaled q :
  safe_integer q →
  binary_normalize F64.prec F64.emax (q * 2 ^ 52) (-52) false = F64.of_Z q.
Proof.
  intros [Hlo Hhi]. destruct q as [|q|q]; [done| |].
  - destruct (iter_xO_spec q 52) as [Hv _].
    replace (Z.pos q * 2 ^ 52) with (Zpos (Pos.iter xO q 52)) by done.
    apply binary_round_scaled, digits_le; lia.
  - destruct (iter_xO_spec q 52) as [Hv _].
    replace (Z.neg q * 2 ^ 52) with (Zneg (Pos.iter xO q 52))
      by (rewrite <- !Pos2Z.opp_pos, Hv; lia).
    apply binary_round_scaled, digits_le; lia.
Qed.

Lemma shl_align_value m e e' :
  e' ≤ e → Zpos (fst (shl_align m e e')) = Zpos m * 2 ^ (e - e').
Proof.
  intros He. unfold shl_align. destruct (e' - e) as [|d|d] eqn:Hd; [|lia|].
  - replace (e - e') with 0 by lia. simpl. lia.
  - simpl. destruct (iter_xO_spec m d) as [-> _]. f_equal. f_equal. lia.
Qed.

(** The double of a safe integer other than 0: the sign, and a mantissa
    and an exponent that give the integer exactly. *)
Lemma of_Z_safe z :
  safe_integer z → z ≠ 0 →
  ∃ m e, F64.of_Z z = S754_finite (bool_decide (z < 0)) m e ∧
         -52 ≤ e ≤ 0 ∧ Zpos m * 2 ^ (e + 52) = Z.abs z * 2 ^ 52.
Proof.
  intros [Hlo Hhi] Hz. destruct z as [|p|p]; [done| |].
  - assert (digits p ≤ 53) as Hd by (apply digits_le; lia).
    destruct (binary_round_small false p Hd) as (m & Hm & Hdm & Hv).
    assert (1 ≤ digits p) by (unfold digits; lia).
    exists m, (digits p - 53). split_and!; [done|lia..|].
    rewrite Hv, <- Z.mul_assoc, <- Z.pow_add_r by lia.
    simpl Z.abs. f_equal. f_equal. lia.
  - assert (digits p ≤ 53) as Hd by (apply digits_le; lia).
    destruct (binary_round_small true p Hd) as (m & Hm & Hdm & Hv).
    assert (1 ≤ digits p) by (unfold digits; lia).
    exists m, (digits p - 53). split_and!; [done|lia..|].
    rewrite Hv, <- Z.mul_assoc, <- Z.pow_add_r by lia.
    simpl Z.abs. f_equal. f_equal. lia.
Qed.

(** Every safe integer is held by a double. *)
Lemma to_Z_of_Z_safe z : safe_integer z → F64.to_Z (F64.of_Z z) = Some z.
Proof.
  intros Hz. destruct (decide (z = 0)) as [->|Hz0]; [done|].
  destruct (of_Z_safe z Hz Hz0) as (m & e & -> & He & Hv).
  assert (Zpos m = Z.abs z * 2 ^ (- e)) as Hm.
  { apply (Z.mul_cancel_r _ _ (2 ^ (e + 52))); [lia|].
    rewrite Hv, <- Z.mul_assoc, <- Z.pow_add_r by lia.
    f_equal. f_equal. lia. }
  unfold F64.to_Z. case_decide as He0.
  - replace e with 0 in * by lia. f_equal.
    case_bool_decide; simpl cond_Zopp; lia.
  - assert (0 < 2 ^ (- e)) by (apply Z.pow_pos_nonneg; lia).
    rewrite Hm, Z.mod_mul, Z.div_mul by lia.
    rewrite decide_True by done. f_equal.
    case_bool_decide; simpl cond_Zopp; lia.
Qed.

(** Adding 1 to a safe integer is exact in binary64. *)
Lemma add_one_exact p :
  safe_integer p →
  F64.add (F64.of_Z p) (F64.of_Z 1) = F64.of_Z (p + 1).
Proof.
  intros Hp.
  destruct (decide (p = 0)) as [->|Hp0]; [done|].
  destruct (decide (p = -1)) as [->|Hp1]; [done|].
  destruct (decide (p = 2 ^ 53 - 1)) as [->|Hpmax]; [by vm_compute|].
  destruct (of_Z_safe p Hp Hp0) as (m & e & -> & He & Hv).
  change (F64.of_Z 1) with (S754_finite false 4503599627370496 (-52)).
  unfold F64.add, SFadd.
  replace (Z.min e (-52)) with (-52) by lia.
  rewrite !shl_align_value by lia.
  replace (e - -52) with (e + 52) by lia. rewrite Hv.
  replace (cond_Zopp (bool_decide (p < 0)) (Z.abs p * 2 ^ 52)
           + cond_Zopp false (Z.pos 4503599627370496 * 2 ^ (-52 - -52)))
    with ((p + 1) * 2 ^ 52).
  - apply binary_normalize_scaled. unfold safe_integer in *. lia.
  - case_bool_decide; simpl cond_Zopp; change (2 ^ (-52 - -52)) with 1; lia.
Qed.

Lemma eqb_finite s m e s' m' e' :
  F64.eqb (S754_finite s m e) (S754_finite s' m' e') = true
  ↔ s = s' ∧ m = m' ∧ e = e'.
Proof.
  unfold F64.eqb, SFeqb, SFcompare.
  change (Pos.compare_cont Eq m m') with (Pos.compare m m').
  destruct s, s'; try (split; [done|intros (? & _); done]);
    destruct (Z.compare_spec e e'); destruct (Pos.compare_spec m m');
    simpl; split; try done; try (intros (_ & ? & ?); lia);
    intros _; split_and!; (done || lia).
Qed.

(** [===] on the doubles of two integers, one safe and the other at most
    2^53 in absolute value, is equality of the integers. *)
Lemma eqb_of_Z c q :
  safe_integer c → - 2 ^ 53 < q ≤ 2 ^ 53 →
  F64.eqb (F64.of_Z c) (F64.of_Z q) = bool_decide (c = q).
Proof.
  intros Hc Hq. case_bool_decide as Heq.
  { subst q. destruct (decide (c = 0)) as [->|Hc0]; [done|].
    destruct (of_Z_safe c Hc Hc0) as (m & e & -> & He & Hv).
    by apply eqb_finite. }
  apply not_true_is_false. intros Heqb.
  destruct (decide (c = 0)) as [->|Hc0].
  { destruct (decide (q = 2 ^ 53)) as [->|Hqmax]; [done|].
    assert (safe_integer q) as Hq' by (unfold safe_integer; lia).
    destruct (of_Z_safe q Hq') as (m & e & Hm & He & Hv); [done|].
    rewrite Hm in Heqb. unfold F64.eqb, SFeqb in Heqb. simpl in Heqb.
    by destruct (bool_decide (q < 0)). }
  destruct (of_Z_safe c Hc Hc0) as (m & e & Hm & He & Hv).
  rewrite Hm in Heqb.
  destruct (decide (q = 2 ^ 53)) as [->|Hqmax].
  { change (F64.of_Z (2 ^ 53)) with (S754_finite false 4503599627370496 1)
      in Heqb.
    apply eqb_finite in Heqb. lia. }
  destruct (decide (q = 0)) as [->|Hq0].
  { unfold F64.eqb, SFeqb in Heqb. simpl in Heqb.
    by destruct (bool_decide (c < 0)). }
  assert (safe_integer q) as Hq' by (unfold safe_integer; lia).
  destruct (of_Z_safe q Hq' Hq0) as (m' & e' & Hm' & He' & Hv').
  rewrite Hm' in Heqb. apply eqb_finite in Heqb as (Hs & <- & <-).
  apply Heq. repeat case_bool_decide; try done; nia.
Qed.

(** The loop test [current === prev + 1] on safe integers. *)
Lemma consecutive_safe current prev :
  safe_integer current → safe_integer prev →
  F64.eqb (F64.of_Z current) (F64.add (F64.of_Z prev) (F64.of_Z 1))
  = bool_decide (current = prev + 1).
Proof.
  intros Hc Hp. rewrite add_one_exact by done.
  apply eqb_of_Z; [done|]. unfold safe_integer in Hp. lia.
Qed.

(** The double nearest to an integer from 2^53 on has a positive exponent,
    when it is finite. *)
Lemma of_Z_large p s m e :
  2 ^ 53 ≤ Zpos p → F64.of_Z (Zpos p) = S754_finite s m e → 1 ≤ e.
Proof.
  intros Hp. assert (53 < digits p) as Hd by (apply digits_gt; lia).
  unfold F64.of_Z, binary_normalize, binary_round, shl_align.
  unfold fexp at 1 2, emin, F64.prec, F64.emax. fold (digits p).
  replace (Z.max (digits p + 0 - 53) (3 - 1024 - 53)) with (digits p - 53)
    by lia.
  destruct (digits p - 53 - 0) as [|d|d] eqn:Hdd; [lia| |lia].
  unfold binary_round_aux, shr_fexp at 1, fexp at 1, emin, F64.prec, F64.emax.
  change (Zdigits2 (Z.pos p)) with (digits p).
  replace (Z.max (digits p + 0 - 53) (3 - 1024 - 53) - 0) with (Zpos d) by lia.
  cbn [shr].
  match goal with |- context [shr_fexp ?a ?b ?c ?d ?e] =>
    destruct (shr_fexp a b c d e) as [mrs e2] eqn:Hshr end.
  assert (1 ≤ e2).
  { unfold shr_fexp, shr in Hshr.
    match type of Hshr with context [match ?n with _ => _ end] =>
      destruct n; inversion Hshr; lia end. }
  destruct (shr_m mrs); [done| |done].
  destruct (e2 <=? _); [|done]. intros [= _ _ <-]. done.
Qed.

(** No other integer from 0 on has the double of a positive safe integer
    as its nearest double. *)
Lemma of_Z_inj_safe a b :
  0 < a < 2 ^ 53 → 0 ≤ b → F64.of_Z b = F64.of_Z a → b = a.
Proof.
  intros Ha Hb Heq.
  assert (safe_integer a) as Hsa by (unfold safe_integer; lia).
  destruct (of_Z_safe a Hsa) as (m & e & Hm & He & Hv); [lia|].
  rewrite Hm in Heq.
  destruct b as [|p|p]; [done| |lia].
  destruct (Z.lt_ge_cases (Zpos p) (2 ^ 53)) as [Hsmall|Hlarge].
  - assert (safe_integer (Zpos p)) as Hsb by (unfold safe_integer; lia).
    destruct (of_Z_safe (Zpos p) Hsb) as (m' & e' & Hm' & He' & Hv'); [lia|].
    rewrite Hm' in Heq. injection Heq as _ <- <-. nia.
  - apply of_Z_large in Heq; [lia|done].
Qed.

(** ** Number::toString *)

(** The digits chosen denote the number: the double nearest to them is the
    number itself. *)
Lemma shortest_digits_round_trip x z j :
  F64.of_Z z = x → F64.of_Z (JS.shortest_digits x z j) = x.
Proof.
  intros Hz. induction j as [|j IH]; [done|].
  cbn [JS.shortest_digits]. cbv zeta.
  repeat (case_bool_decide || case_decide || case_match); simpl in *;
    try done.
Qed.

Lemma shortest_digits_nonneg x z j : 0 ≤ z → 0 ≤ JS.shortest_digits x z j.
Proof.
  intros Hz. induction j as [|j IH]; [done|].
  cbn [JS.shortest_digits]. cbv zeta.
  assert (0 < 10 ^ Z.of_nat (S j)) by (apply Z.pow_pos_nonneg; lia).
  assert (0 ≤ z `div` 10 ^ Z.of_nat (S j)) by (apply Z.div_pos; lia).
  repeat (case_bool_decide || case_decide || case_match); simpl in *;
    try done; nia.
Qed.

(** A safe integer is printed as its decimal digits. *)
Lemma Number_toString_safe z :
  safe_integer z → JS.Number_toString z = pretty z.
Proof.
  intros Hz. unfold JS.Number_toString. case_decide as Hz0; [by subst|].
  cbv zeta.
  set (a := Z.abs z). set (j := (String.length (pretty a) - 1)%nat).
  assert (0 < a < 2 ^ 53) as Ha by (unfold safe_integer in Hz; lia).
  assert (JS.shortest_digits (F64.of_Z a) a j = a) as ->.
  { apply of_Z_inj_safe; [done|apply shortest_digits_nonneg; lia|].
    by apply shortest_digits_round_trip. }
  assert (2 ^ 53 < 10 ^ 21) by done.
  rewrite (decide_True (P := a < 10 ^ 21)) by lia.
  subst a. destruct z as [|p|p]; [by destruct Hz0| |].
  - rewrite decide_False by lia. reflexivity.
  - rewrite decide_True by lia. reflexivity.
Qed.

Lemma pretty_N_char_digit d : decimal_digit (pretty_N_char d).
Proof.
  unfold pretty_N_char, decimal_digit. repeat case_match; vm_compute; lia.
Qed.

Lemma pretty_N_go_head (x : N) :
  ∀ a s, decimal_digit a →
  ∃ b u, pretty_N_go x (String a s) = String b u ∧ decimal_digit b.
Proof.
  induction (N.lt_wf_0 x) as [x _ IH]; intros a s Ha.
  assert (x = 0 ∨ 0 < x)%N as [->|?] by lia.
  - rewrite pretty_N_go_0. eauto.
  - rewrite pretty_N_go_step by done.
    apply IH; [by apply N.div_lt|apply pretty_N_char_digit].
Qed.

Lemma pretty_Z_head (z : Z) : ∃ b u, pretty z = String b u ∧ sign_or_digit b.
Proof.
  destruct z as [|p|p].
  - exists "0"%char, EmptyString. split; [done|right].
    unfold decimal_digit. vm_compute. lia.
  - unfold pretty, pretty_Z, pretty, pretty_positive, pretty, pretty_N.
    rewrite decide_False by done. rewrite pretty_N_go_step by lia.
    destruct (pretty_N_go_head (N.pos p `div` 10)
                (pretty_N_char (N.pos p `mod` 10)) EmptyString)
      as (b & u & -> & Hb); [apply pretty_N_char_digit|].
    exists b, u. split; [done|by right].
  - exists "-"%char, (pretty p). split; [done|by left].
Qed.

(** Whatever the integer, its string starts with a digit or a minus sign. *)
Lemma Number_toString_head z :
  ∃ b u, JS.Number_toString z = String b u ∧ sign_or_digit b.
Proof.
  unfold JS.Number_toString. case_decide as Hz0.
  { exists "0"%char, EmptyString. split; [done|right].
    unfold decimal_digit. vm_compute. lia. }
  cbv zeta. case_decide as Hneg.
  { eexists "-"%char, _. split; [reflexivity|by left]. }
  set (v := JS.shortest_digits _ _ _).
  destruct (pretty_Z_head v) as (b & u & Hv & Hb).
  case_decide.
  - exists b, u. by rewrite Hv.
  - unfold JS.exponent_form. rewrite Hv. eexists b, _. split; [reflexivity|done].
Qed.

(** ** formatPageRanges *)

Lemma range_token_run start prev :
  safe_integer start → safe_integer prev →
  range_token start prev = run_token (start, prev).
Proof.
  intros Hs Hp. unfold range_token, run_token. simpl.
  by rewrite !Number_toString_safe.
Qed.

(** On safe integers the strings pushed by the loop are the tokens of the
    runs it closes. *)
Lemma ranges_loop_runs rest start prev acc :
  safe_integer start → Forall safe_integer (prev :: rest) →
  ranges_loop rest start prev (run_token <$> acc)
  = run_token <$> runs_loop rest start prev acc.
Proof.
  revert start prev acc.
  induction rest as [|current rest IH]; intros start prev acc Hs Hsafe;
    pose proof (Forall_inv Hsafe) as Hp; apply Forall_inv_tail in Hsafe;
    simpl.
  - by rewrite fmap_app, range_token_run.
  - pose proof (Forall_inv Hsafe) as Hc.
    rewrite consecutive_safe by done. case_bool_decide as Hnext.
    + rewrite decide_True by done. by apply IH.
    + rewrite decide_False by done.
      rewrite <- IH, fmap_app, range_token_run by done. reflexivity.
Qed.

Lemma ranges_loop_acc rest start prev ranges :
  ranges_loop rest start prev ranges
  = ranges ++ ranges_loop rest start prev [].
Proof.
  revert start prev ranges.
  induction rest as [|current rest IH]; intros start prev ranges; simpl;
    [done|].
  destruct (F64.eqb _ _); [apply IH|].
  rewrite IH, (IH _ _ [_]), app_assoc. reflexivity.
Qed.

(** The first string pushed is a token for the smallest element. *)
Lemma ranges_loop_head rest : ∀ start prev,
  ∃ p tl, ranges_loop rest start prev [] = range_token start p :: tl.
Proof.
  induction rest as [|current rest IH]; intros start prev; simpl.
  - by exists prev, [].
  - destruct (F64.eqb _ _); [apply IH|].
    rewrite ranges_loop_acc. by eexists prev, _.
Qed.

Lemma runs_loop_acc rest start prev acc :
  runs_loop rest start prev acc = acc ++ runs_loop rest start prev [].
Proof.
  revert start prev acc.
  induction rest as [|current rest IH]; intros start prev acc; simpl; [done|].
  case_decide; [apply IH|].
  rewrite IH, (IH _ _ [_]), app_assoc. reflexivity.
Qed.

Lemma covers_cons r rs x :
  covers (r :: rs) x ↔ r.1 ≤ x ≤ r.2 ∨ covers rs x.
Proof.
  unfold covers. split.
  - intros (r' & [->|Hin]%elem_of_cons & Hx); [by left|right; eauto].
  - intros [Hx|(r' & Hin & Hx)].
    + exists r. split; [left|done].
    + exists r'. split; [by right|done].
Qed.

Lemma covers_nil x : ¬ covers [] x.
Proof. intros (r & Hin & _). by apply elem_of_nil in Hin. Qed.

(** What the loop computes from an open range [start..prev] and the
    strictly ascending remainder of the array. *)
Lemma runs_loop_spec rest : ∀ start prev,
  start ≤ prev → Sorted Z.lt (prev :: rest) →
  ∃ e tl,
    runs_loop rest start prev [] = (start, e) :: tl ∧
    Forall (λ r, r.1 ≤ r.2) ((start, e) :: tl) ∧
    Sorted run_before ((start, e) :: tl) ∧
    ∀ x, covers ((start, e) :: tl) x ↔ start ≤ x ≤ prev ∨ x ∈ rest.
Proof.
  induction rest as [|current rest IH]; intros start prev Hle Hsorted.
  - exists prev, []. simpl. split_and!; [done|by repeat constructor..|].
    intros x. rewrite covers_cons, elem_of_nil. simpl.
    pose proof (covers_nil x). tauto.
  - apply Sorted_inv in Hsorted as [Hsorted Hhd].
    apply HdRel_inv in Hhd. simpl. case_decide as Hnext.
    + destruct (IH start current) as (e & tl & Heq & Hne & Hsep & Hcov);
        [lia|done|].
      exists e, tl. split_and!; [done..|].
      intros x. rewrite Hcov, elem_of_cons.
      assert (start ≤ x ≤ current ↔ start ≤ x ≤ prev ∨ x = current) by lia.
      tauto.
    + destruct (IH current current) as (e & tl & Heq & Hne & Hsep & Hcov);
        [lia|done|].
      exists prev, ((current, e) :: tl).
      rewrite runs_loop_acc, Heq. split_and!.
      * reflexivity.
      * by constructor.
      * constructor; [done|]. constructor. unfold run_before. simpl. lia.
      * intros x. rewrite covers_cons, Hcov, elem_of_cons. simpl.
        assert (current ≤ x ≤ current ↔ x = current) by lia. tauto.
Qed.

Lemma formatPageRanges_nonempty x xs :
  Forall safe_integer (x :: xs) →
  ∃ rs, maximal_runs (x :: xs) rs ∧
        formatPageRanges (x :: xs) = JS.join ", " (run_token <$> rs).
Proof.
  unfold formatPageRanges. simpl decide. cbv iota.
  set (l := x :: xs). intros Hsafe.
  pose proof (sort_numeric_strict _ (new_Set_NoDup l)) as Hsorted.
  assert (∀ y, y ∈ JS.sort_numeric (JS.new_Set l) ↔ y ∈ l) as Hel.
  { intros y. by rewrite sort_numeric_elem_of, new_Set_elem_of. }
  assert (Forall safe_integer (JS.sort_numeric (JS.new_Set l))) as Hsafe'.
  { rewrite Forall_forall in Hsafe |- *. intros y Hy. by apply Hsafe, Hel. }
  destruct (JS.sort_numeric (JS.new_Set l)) as [|s0 rest].
  { exfalso. apply (elem_of_nil x), Hel. left. }
  apply StronglySorted_Sorted in Hsorted.
  destruct (runs_loop_spec rest s0 s0) as (e & tl & Heq & Hne & Hsep & Hcov);
    [lia|done|].
  exists ((s0, e) :: tl). split.
  - split; [done..|]. intros y. rewrite Hcov, <- Hel, elem_of_cons.
    assert (s0 ≤ y ≤ s0 ↔ y = s0) by lia. tauto.
  - rewrite <- Heq. change [] with (run_token <$> []) at 1.
    rewrite ranges_loop_runs; [done|by apply Forall_inv in Hsafe'|done].
Qed.

(** *** Maximal runs are unique *)

Lemma well_formed_runs_tail r rs :
  well_formed_runs (r :: rs) → well_formed_runs rs.
Proof.
  intros [Hne Hs]. split; [by apply Forall_inv_tail in Hne|].
  by apply Sorted_inv in Hs as [? _].
Qed.

(** Everything a later run covers lies beyond the gap after an earlier
    one. *)
Lemma covers_tail_above rs : ∀ r x,
  well_formed_runs (r :: rs) → covers rs x → r.2 + 1 < x.
Proof.
  induction rs as [|r' rs IH]; intros r x Hwf Hx.
  { by apply covers_nil in Hx. }
  pose proof (well_formed_runs_tail _ _ Hwf) as Hwf'.
  destruct Hwf as [Hne Hs]. apply Sorted_inv in Hs as [_ Hhd].
  apply HdRel_inv in Hhd. unfold run_before in Hhd.
  apply Forall_inv_tail, Forall_inv in Hne.
  apply covers_cons in Hx as [Hx|Hx]; [lia|].
  specialize (IH r' x Hwf' Hx). lia.
Qed.

Lemma well_formed_runs_ext rs1 : ∀ rs2,
  well_formed_runs rs1 → well_formed_runs rs2 →
  (∀ x, covers rs1 x ↔ covers rs2 x) → rs1 = rs2.
Proof.
  induction rs1 as [|[s1 e1] rs1 IH]; intros [|[s2 e2] rs2] Hwf1 Hwf2 Hcov.
  - done.
  - exfalso. apply (covers_nil s2), Hcov, covers_cons. left. simpl.
    destruct Hwf2 as [Hne _]. apply Forall_inv in Hne. simpl in Hne. lia.
  - exfalso. apply (covers_nil s1), Hcov, covers_cons. left. simpl.
    destruct Hwf1 as [Hne _]. apply Forall_inv in Hne. simpl in Hne. lia.
  - pose proof (covers_tail_above rs1 (s1, e1)) as Hab1.
    pose proof (covers_tail_above rs2 (s2, e2)) as Hab2.
    pose proof (proj1 Hwf1) as Hne1. apply Forall_inv in Hne1.
    pose proof (proj1 Hwf2) as Hne2. apply Forall_inv in Hne2.
    simpl in *.
    assert (∀ x, s1 ≤ x ≤ e1 ∨ covers rs1 x ↔ s2 ≤ x ≤ e2 ∨ covers rs2 x)
      as Hcov'.
    { intros x. specialize (Hcov x). by rewrite !covers_cons in Hcov. }
    assert (s1 = s2) as <-.
    { destruct (proj1 (Hcov' s1)) as [?|Hx]; [lia| |];
        destruct (proj2 (Hcov' s2)) as [?|Hy]; try lia;
        try (specialize (Hab1 _ Hwf1 Hy)); try (specialize (Hab2 _ Hwf2 Hx));
        lia. }
    assert (e1 = e2) as <-.
    { destruct (Z.lt_trichotomy e1 e2) as [Hlt|[?|Hlt]]; [|done|]; exfalso.
      - destruct (proj2 (Hcov' (e1 + 1))) as [?|Hx]; [lia|lia|].
        specialize (Hab1 _ Hwf1 Hx). lia.
      - destruct (proj1 (Hcov' (e2 + 1))) as [?|Hx]; [lia|lia|].
        specialize (Hab2 _ Hwf2 Hx). lia. }
    f_equal. apply IH; [by eapply well_formed_runs_tail..|].
    intros x. split; intros Hx.
    + destruct (proj1 (Hcov' x)) as [?|?]; [by right| |done].
      specialize (Hab1 _ Hwf1 Hx). lia.
    + destruct (proj2 (Hcov' x)) as [?|?]; [by right| |done].
      specialize (Hab2 _ Hwf2 Hx). lia.
Qed.

(** A collection has at most one list of maximal runs. *)
Lemma maximal_runs_unique l rs1 rs2 :
  maximal_runs l rs1 → maximal_runs l rs2 → rs1 = rs2.
Proof.
  intros [Hne1 Hs1 Hc1] [Hne2 Hs2 Hc2].
  apply well_formed_runs_ext; [done..|].
  intros x. by rewrite <- Hc1, <- Hc2.
Qed.

(** C4. [formatPageRanges] returns ["None"] for the empty collection.
    For a non-empty collection of safe integers its result is the tokens of
    the maximal runs of consecutive integers of the collection, in ascending
    order, joined with [", "], where a run of one element [s] is written [s]
    and a longer run from [s] to [e] is written [s-e], the integers in
    decimal digits; duplicates and the order of the input play no part.
    The five documented examples hold. *)
Theorem formatPageRanges_spec :
  formatPageRanges [] = "None" ∧
  (∀ x xs, Forall safe_integer (x :: xs) →
     ∃ rs,
       maximal_runs (x :: xs) rs ∧
       (∀ rs', maximal_runs (x :: xs) rs' → rs' = rs) ∧
       formatPageRanges (x :: xs) = JS.join ", " (run_token <$> rs)) ∧
  formatPageRanges [5] = "5" ∧
  formatPageRanges [1; 2; 3; 5; 7; 8] = "1-3, 5, 7-8" ∧
  formatPageRanges [3; 1; 2] = "1-3" ∧
  formatPageRanges [4; 4; 4] = "4".
Proof.
  split; [done|]. split; [|split_and!; by vm_compute].
  intros x xs Hsafe.
  destruct (formatPageRanges_nonempty x xs Hsafe) as (rs & Hrs & Heq).
  exists rs. split_and!; [done| |done].
  intros rs' Hrs'. by apply (maximal_runs_unique (x :: xs)).
Qed.

Lemma formatPageRanges_spec_witness :
  ∃ rs,
    maximal_runs [8; 3; 4; 3; -1] rs ∧
    (∀ rs', maximal_runs [8; 3; 4; 3; -1] rs' → rs' = rs) ∧
    formatPageRanges [8; 3; 4; 3; -1] = JS.join ", " (run_token <$> rs).
Proof.
  apply (proj1 (proj2 formatPageRanges_spec) 8 [3; 4; 3; -1]).
  repeat constructor; unfold safe_integer; lia.
Defined.

(** Beyond the safe integers the statement fails.  2^53 + 2 and 2^53 + 4
    are both held by doubles and are not consecutive, so they form two
    maximal runs; but [prev + 1] is then 2^53 + 3 rounded to the nearest
    double, which is 2^53 + 4, and the loop merges the two into one
    range. *)
Lemma formatPageRanges_merges_beyond_safe_integers :
  let a := 2 ^ 53 + 2 in
  let b := 2 ^ 53 + 4 in
  F64.to_Z (F64.of_Z a) = Some a ∧
  F64.to_Z (F64.of_Z b) = Some b ∧
  F64.add (F64.of_Z a) (F64.of_Z 1) = F64.of_Z b ∧
  maximal_runs [a; b] [(a, a); (b, b)] ∧
  JS.join ", " (run_token <$> [(a, a); (b, b)])
  = "9007199254740994, 9007199254740996" ∧
  formatPageRanges [a; b] = "9007199254740994-9007199254740996" ∧
  ¬ ∃ rs, maximal_runs [a; b] rs ∧
          formatPageRanges [a; b] = JS.join ", " (run_token <$> rs).
Proof.
  intros a b.
  assert (maximal_runs [a; b] [(a, a); (b, b)]) as Hruns.
  { split.
    - by repeat constructor.
    - repeat constructor; unfold run_before, a, b; simpl; lia.
    - intros x. rewrite !covers_cons, !elem_of_cons, elem_of_nil. simpl.
      pose proof (covers_nil x). intuition lia. }
  split; [by vm_compute|]. split; [by vm_compute|].
  split; [by vm_compute|]. split; [done|].
  split; [by vm_compute|]. split; [by vm_compute|].
  intros (rs & Hrs & Heq).
  rewrite (maximal_runs_unique _ _ _ Hrs Hruns) in Heq.
  by vm_compute in Heq.
Qed.

(** From 10^21 on a number is printed in exponent form. *)
Lemma formatPageRanges_exponent_form :
  formatPageRanges [10 ^ 21] = "1e+21" ∧
  formatPageRanges [2 ^ 70; 2 ^ 60] = "1152921504606847000, 1.1805916207174113e+21".
Proof. split; by vm_compute. Qed.

(** ** analyzeImagePixelData *)

(** *** Binary64 division of a buffer length by 4 *)

Lemma div_4 m e :
  digits m = 53 → -1071 ≤ e ≤ 973 →
  F64.div (S754_finite false m e) (F64.of_Z 4) = S754_finite false m (e - 2).
Proof.
  intros Hd He.
  change (F64.of_Z 4) with (S754_finite false 4503599627370496 (-50)).
  unfold F64.div, SFdiv, SFdiv_core_binary.
  unfold fexp, emin, F64.prec, F64.emax.
  change (Zdigits2 (Z.pos 4503599627370496)) with 53.
  change (Zdigits2 (Z.pos m)) with (digits m). rewrite Hd.
  replace (Z.min (Z.max (53 + e - (53 + -50) - 53) (3 - 1024 - 53)) (e - -50))
    with (e - 3) by lia.
  replace (e - -50 - (e - 3)) with 53 by lia.
  destruct (Z.div_eucl (Z.shiftl (Z.pos m) 53) 4503599627370496)
    as [q r] eqn:Hdiv.
  assert (q = Z.shiftl (Z.pos m) 53 `div` 4503599627370496) as Hq
    by (unfold Z.div; by rewrite Hdiv).
  assert (r = Z.shiftl (Z.pos m) 53 `mod` 4503599627370496) as Hr
    by (unfold Z.modulo; by rewrite Hdiv).
  rewrite Z.shiftl_mul_pow2 in Hq, Hr by lia.
  replace (Z.pos m * 2 ^ 53) with (Z.pos m~0 * 4503599627370496) in Hq, Hr
    by lia.
  rewrite Z.div_mul in Hq by lia. rewrite Z.mod_mul in Hr by lia.
  subst q r. simpl xorb.
  change (new_location 4503599627370496 0) with loc_Exact.
  rewrite binary_round_aux_even by lia. f_equal. lia.
Qed.

(** Dividing a multiple of four below 2^53 by 4 is exact. *)
Lemma div_4_exact k :
  0 ≤ k → 4 * k < 2 ^ 53 →
  F64.div (F64.of_Z (4 * k)) (F64.of_Z 4) = F64.of_Z k.
Proof.
  intros Hk Hlt. destruct k as [|p|p]; [done| |lia].
  change (4 * Z.pos p) with (Z.pos p~0~0).
  assert (digits p~0~0 = digits p + 2) as Hd4.
  { unfold digits. simpl. lia. }
  assert (digits p~0~0 ≤ 53) as Hd.
  { destruct (Z.lt_ge_cases 53 (digits p~0~0)) as [Hbig|]; [|done].
    exfalso. pose proof (digits_lower p~0~0) as Hlow.
    assert (2 ^ 53 ≤ 2 ^ (digits p~0~0 - 1))
      by (apply Z.pow_le_mono_r; lia).
    lia. }
  destruct (of_Z_pos p~0~0 Hd) as (m4 & -> & Hdm4 & Hv4).
  destruct (of_Z_pos p) as (m & -> & Hdm & Hv); [lia|].
  assert (1 ≤ digits p) by (unfold digits; lia).
  rewrite div_4 by lia.
  assert (m4 = m) as ->.
  { apply Pos2Z.inj. rewrite Hv4, Hv, Hd4.
    replace (53 - digits p) with (2 + (53 - (digits p + 2))) by lia.
    rewrite Z.pow_add_r by lia. lia. }
  f_equal. lia.
Qed.

(** *** The pixel loop *)

Lemma maxDiff_at_drop data i :
  maxDiff_at data i = maxDiff_at (drop i data) 0.
Proof.
  unfold maxDiff_at, channel. cbv zeta.
  rewrite !lookup_drop, Nat.add_0_r. reflexivity.
Qed.

Section pixel_loop.

Variable varianceThreshold : spec_float.

Lemma pixel_loop_step data i colorPixelCount :
  pixel_loop data varianceThreshold i colorPixelCount =
  if decide (i < length data)%nat
  then pixel_loop data varianceThreshold (i + 4)
         (if exceeds (maxDiff_at data i) varianceThreshold
          then colorPixelCount + 1 else colorPixelCount)
  else colorPixelCount.
Proof.
  rewrite pixel_loop_equation_1.
  destruct (decide (i < length data)%nat); reflexivity.
Qed.

(** One iteration on the part of the buffer that starts at [i]. *)
Lemma iteration_count (tail : list Byte.byte) c :
  (if exceeds (maxDiff_at tail 0) varianceThreshold then c + 1 else c)
  + count_color varianceThreshold (read_groups (drop 4 tail))
  = c + count_color varianceThreshold (read_groups tail).
Proof.
  destruct tail as [|r [|g [|b [|a rest]]]]; simpl; try lia.
  - unfold maxDiff_at, is_color_pixel, exceeds. simpl.
    destruct (F64.gt _ _); lia.
  - unfold maxDiff_at, is_color_pixel, exceeds. simpl.
    rewrite drop_0. destruct (F64.gt _ _); lia.
Qed.

(** The loop counts the colour pixels among the groups it reads. *)
Lemma pixel_loop_count data (bound : nat) : ∀ i c,
  (length data - i ≤ bound)%nat →
  pixel_loop data varianceThreshold i c
  = c + count_color varianceThreshold (read_groups (drop i data)).
Proof.
  induction bound as [|bound IH]; intros i c Hbound; rewrite pixel_loop_step;
    destruct (decide (i < length data)%nat) as [Hlt|Hge]; try lia.
  - rewrite drop_ge by lia. simpl. lia.
  - rewrite IH by lia. rewrite maxDiff_at_drop, <- drop_drop.
    apply iteration_count.
  - rewrite drop_ge by lia. simpl. lia.
Qed.

Lemma colorPixels_count data coverageThreshold :
  Analysis.colorPixels
    (analyzeImagePixelData data varianceThreshold coverageThreshold)
  = count_color varianceThreshold (read_groups data).
Proof.
  unfold analyzeImagePixelData. simpl.
  rewrite (pixel_loop_count _ (length data)) by lia.
  rewrite drop_0. lia.
Qed.

End pixel_loop.

(** On a buffer of complete RGBA groups the loop reads the pixels. *)
Lemma read_groups_pixels (n : nat) : ∀ data,
  (length data ≤ n)%nat → (length data `mod` 4 = 0)%nat →
  read_groups data = pixels data ∧
  Z.of_nat (length (pixels data)) = Z.of_nat (length data) `div` 4.
Proof.
  induction n as [n IH] using lt_wf_ind. intros data Hlen Hmod.
  destruct data as [|r [|g [|b [|a rest]]]]; try (simpl in Hmod; lia).
  - done.
  - assert (length rest `mod` 4 = 0)%nat as Hmod'.
    { simpl length in Hmod.
      replace (S (S (S (S (length rest))))) with (length rest + 1 * 4)%nat
        in Hmod by lia.
      by rewrite Nat.Div0.mod_add in Hmod. }
    destruct (IH (length rest)) with (data := rest) as [Hg Hl];
      [simpl in Hlen; lia|done|done|].
    simpl. rewrite Hg. split; [done|].
    replace (Z.of_nat (S (S (S (S (length rest))))))
      with (Z.of_nat (length rest) + 1 * 4) by lia.
    rewrite Z.div_add by lia. lia.
Qed.

(** *** Facts of binary64 comparison and division used below *)

(** Case analysis on a double: its class and its sign. *)
Ltac float_cases x := destruct x as [[]|[]| |[] ? ?].

Lemma gt_zero_of_ge_zero x : F64.ge x F64.zero = true → F64.gt F64.zero x = false.
Proof. by float_cases x. Qed.

(** [0 / t] is a zero or NaN, whatever [t] is. *)
Lemma div_zero_l t :
  (∃ s, F64.div F64.zero t = S754_zero s) ∨ F64.div F64.zero t = S754_nan.
Proof. destruct t as [s|s| |s m e]; simpl; eauto. Qed.

Lemma gt_zero_sign s x : F64.gt (S754_zero s) x = F64.gt F64.zero x.
Proof. by float_cases x. Qed.

Lemma gt_nan_l x : F64.gt S754_nan x = false.
Proof. by float_cases x. Qed.

Lemma count_color_gray varianceThreshold pxs :
  F64.ge varianceThreshold F64.zero = true →
  Forall gray pxs → count_color varianceThreshold pxs = 0.
Proof.
  intros Hvt. induction 1 as [|[[r g] b] pxs [-> ->] _ IH]; [done|].
  simpl. rewrite IH. unfold is_color_pixel, maxDiff.
  rewrite Z.sub_diag. simpl. change (F64.of_Z 0) with F64.zero.
  by rewrite gt_zero_of_ge_zero.
Qed.

(** C3 (as stated, refuted).  The claim lets both thresholds range freely
    and concludes [isColor = false] for an all-grey buffer from
    [varianceThreshold >= 0] alone.  One black pixel with the default
    variance threshold and a coverage threshold of [-1] is classified as
    colour: its coverage [0] exceeds [-1]. *)
Lemma analyzeImagePixelData_gray_negative_coverage :
  let data := ["000"; "000"; "000"; "255"]%byte in
  (length data `mod` 4 = 0)%nat ∧
  Forall gray (pixels data) ∧
  F64.ge default_varianceThreshold F64.zero = true ∧
  Analysis.isColor
    (analyzeImagePixelData data default_varianceThreshold (F64.of_Z (-1)))
  = true.
Proof.
  split_and!; [done| |done|by vm_compute].
  repeat constructor.
Qed.

(** C3 (amended).  On a buffer whose length is a multiple of 4,
    [totalPixels] is the length divided by 4 (the number of pixels, as an
    exact double for every length a typed array can have), [colorPixels] is
    the number of pixels whose [maxDiff] exceeds [varianceThreshold], and
    [isColor] tells whether [colorPixels / totalPixels] exceeds
    [coverageThreshold].  Hence an all-grey buffer is classified B&W when
    [varianceThreshold >= 0] and [coverageThreshold] is not negative. *)
Theorem analyzeImagePixelData_spec
    (data : list Byte.byte) (varianceThreshold coverageThreshold : spec_float) :
  (length data `mod` 4 = 0)%nat →
  let r := analyzeImagePixelData data varianceThreshold coverageThreshold in
  let n := Z.of_nat (length data) in
  Analysis.totalPixels r = F64.div (F64.of_Z n) (F64.of_Z 4) ∧
  (n < 2 ^ 53 → Analysis.totalPixels r = F64.of_Z (n `div` 4)) ∧
  Z.of_nat (length (pixels data)) = n `div` 4 ∧
  Analysis.colorPixels r = count_color varianceThreshold (pixels data) ∧
  Analysis.isColor r
  = F64.gt (F64.div (F64.of_Z (Analysis.colorPixels r)) (Analysis.totalPixels r))
      coverageThreshold ∧
  (Forall gray (pixels data) →
   F64.ge varianceThreshold F64.zero = true →
   F64.gt F64.zero coverageThreshold = false →
   Analysis.isColor r = false).
Proof.
  intros Hmod r n.
  destruct (read_groups_pixels (length data) data (le_n _) Hmod) as [Hg Hlen].
  assert (Analysis.colorPixels r = count_color varianceThreshold (pixels data))
    as Hcount by (unfold r; by rewrite colorPixels_count, Hg).
  split_and!; try done.
  - intros Hn. unfold r. simpl. fold n.
    assert (n = 4 * (n `div` 4)) as Hn4.
    { apply Z.div_exact; [lia|]. unfold n.
      change 4 with (Z.of_nat 4). rewrite <- Nat2Z.inj_mod, Hmod. done. }
    rewrite Hn4 at 1. apply div_4_exact; lia.
  - intros Hgray Hvt Hct.
    assert (Analysis.colorPixels r = 0) as Hzero
      by (rewrite Hcount; by apply count_color_gray).
    unfold r, analyzeImagePixelData in *. cbv zeta in *.
    cbn [Analysis.isColor Analysis.colorPixels] in *. rewrite Hzero.
    change (F64.of_Z 0) with F64.zero. fold n.
    destruct (div_zero_l (F64.div (F64.of_Z n) (F64.of_Z 4))) as [[s ->]| ->].
    + by rewrite gt_zero_sign.
    + apply gt_nan_l.
Qed.

Lemma analyzeImagePixelData_spec_witness :
  (Analysis.totalPixels
     (analyzeImagePixelData
        ["255"; "000"; "000"; "255"; "007"; "007"; "007"; "255"]%byte
        default_varianceThreshold default_coverageThreshold)
   = F64.of_Z 2
   ∧ Analysis.colorPixels
       (analyzeImagePixelData
          ["255"; "000"; "000"; "255"; "007"; "007"; "007"; "255"]%byte
          default_varianceThreshold default_coverageThreshold)
     = 1)
  ∧ Analysis.isColor
      (analyzeImagePixelData
         ["007"; "007"; "007"; "255"; "200"; "200"; "200"; "255"]%byte
         default_varianceThreshold default_coverageThreshold)
    = false.
Proof.
  split.
  - pose proof (analyzeImagePixelData_spec
                  ["255"; "000"; "000"; "255"; "007"; "007"; "007"; "255"]%byte
                  default_varianceThreshold default_coverageThreshold eq_refl)
      as (_ & Htotal & _ & Hcount & _).
    split; [apply Htotal; reflexivity|exact Hcount].
  - pose proof (analyzeImagePixelData_spec
                  ["007"; "007"; "007"; "255"; "200"; "200"; "200"; "255"]%byte
                  default_varianceThreshold default_coverageThreshold eq_refl)
      as (_ & _ & _ & _ & _ & Hgray).
    apply Hgray; [repeat constructor|reflexivity|reflexivity].
Defined.

(** C7. On an empty buffer the call completes and returns exactly
    [{isColor: false, colorPixels: 0, totalPixels: 0}], whatever the
    thresholds: the coverage [0 / 0] is NaN, and NaN exceeds nothing. *)
Theorem classify_empty_buffer (varianceThreshold coverageThreshold : spec_float) :
  classify [] varianceThreshold coverageThreshold
  = Returns {| Analysis.isColor := false;
               Analysis.colorPixels := 0;
               Analysis.totalPixels := F64.zero |}.
Proof.
  unfold classify, analyzeImagePixelData. cbv zeta.
  rewrite pixel_loop_step. simpl.
  change (F64.div (F64.of_Z 0) (F64.of_Z 4)) with F64.zero.
  change (F64.div (F64.of_Z 0) F64.zero) with S754_nan.
  by rewrite gt_nan_l.
Qed.

(** C8 (as stated, refuted).  A buffer of five bytes, whose length is not
    a multiple of 4, does not make the call fail: it returns one colour
    pixel out of 1.25. *)
Lemma classify_malformed_buffer_returns :
  let data := ["255"; "000"; "000"; "255"; "255"]%byte in
  (length data `mod` 4 ≠ 0)%nat ∧
  classify data default_varianceThreshold default_coverageThreshold
    ≠ Throws InvalidBufferError ∧
  classify data default_varianceThreshold default_coverageThreshold
  = Returns {| Analysis.isColor := true;
               Analysis.colorPixels := 1;
               Analysis.totalPixels := F64.div (F64.of_Z 5) (F64.of_Z 4) |}.
Proof. split_and!; [done|discriminate|by vm_compute]. Qed.

(** C8 (amended).  [analyzeImagePixelData] has no failure path: the call
    returns on every buffer, whether or not its length is a multiple of 4.
    [totalPixels] is the length divided by 4, and [colorPixels] counts the
    groups whose three channels the loop could read: the complete pixels
    and a trailing group of exactly three bytes. *)
Theorem classify_never_fails
    (data : list Byte.byte) (varianceThreshold coverageThreshold : spec_float) :
  ∃ r, classify data varianceThreshold coverageThreshold = Returns r ∧
       Analysis.totalPixels r
       = F64.div (F64.of_Z (Z.of_nat (length data))) (F64.of_Z 4) ∧
       Analysis.colorPixels r
       = count_color varianceThreshold (read_groups data).
Proof.
  eexists. split_and!; [reflexivity|reflexivity|apply colorPixels_count].
Qed.

(** ** calculateSmartSplitStats *)

Lemma sheet_front_odd i : Z.odd i = true → sheet_front i = i.
Proof. unfold sheet_front. by intros ->. Qed.

Lemma sheet_front_even i : Z.odd i = true → sheet_front (i + 1) = i.
Proof.
  unfold sheet_front. intros Hodd.
  replace (Z.odd (i + 1)) with false; [lia|].
  rewrite Z.odd_add, Hodd. reflexivity.
Qed.

Lemma add_to_elem_of k k' x s p :
  p ∈ set_of k (add_to k' x s) ↔ p ∈ set_of k s ∨ (p = x ∧ k = k').
Proof.
  destruct k, k'; simpl; rewrite ?Set_add_elem_of; intuition congruence.
Qed.

Lemma add_to_NoDup k' x s :
  (∀ k, NoDup (set_of k s)) → ∀ k, NoDup (set_of k (add_to k' x s)).
Proof.
  intros Hs k. pose proof (Hs k) as Hk.
  destruct k, k'; simpl in *; try done; by apply Set_add_NoDup.
Qed.

Lemma filed_below_start color totalPages :
  filed_below color totalPages 1 empty_sets.
Proof.
  split.
  - intros k p. destruct k; simpl; rewrite elem_of_nil; lia.
  - intros k. destruct k; apply NoDup_nil_2.
Qed.

(** *** The sheet loop over a fixed page map *)

Section sheet_loop.

Variables (pageMap : gmap Z bool) (totalPages : Z).

Lemma sheets_loop_step i s :
  sheets_loop pageMap totalPages i s =
  if decide (i ≤ totalPages)
  then sheets_loop pageMap totalPages (i + 2) (sheet_body pageMap totalPages i s)
  else s.
Proof.
  rewrite sheets_loop_equation_1.
  destruct (decide (i ≤ totalPages)); reflexivity.
Qed.

(** One iteration files page [i], and page [i + 1] when it exists, each
    under its own bucket. *)
Lemma sheet_body_buckets i s :
  Z.odd i = true →
  sheet_body pageMap totalPages i s =
  let color := get_or_false pageMap in
  let s' := add_to (bucket_of color totalPages i) i s in
  if decide (i + 1 ≤ totalPages)
  then add_to (bucket_of color totalPages (i + 1)) (i + 1) s'
  else s'.
Proof.
  intros Hodd. unfold sheet_body, bucket_of. cbv zeta.
  rewrite (sheet_front_odd i Hodd), (sheet_front_even i Hodd).
  destruct (decide (i + 1 ≤ totalPages)) as [Hb|Hb].
  - rewrite (bool_decide_eq_true_2 _ Hb).
    destruct (decide (totalPages < i + 1)); [lia|].
    destruct (get_or_false pageMap i), (get_or_false pageMap (i + 1));
      reflexivity.
  - rewrite (bool_decide_eq_false_2 _ Hb).
    destruct (decide (totalPages < i + 1)); [|lia].
    destruct (get_or_false pageMap i); reflexivity.
Qed.

Lemma filed_below_body i s :
  Z.odd i = true → 1 ≤ i ≤ totalPages →
  filed_below (get_or_false pageMap) totalPages i s →
  filed_below (get_or_false pageMap) totalPages (i + 2)
    (sheet_body pageMap totalPages i s).
Proof.
  intros Hodd Hi [Hmem Hnd].
  rewrite (sheet_body_buckets _ _ Hodd). cbv zeta.
  destruct (decide (i + 1 ≤ totalPages)) as [Hb|Hb]; split.
  - intros k p. rewrite !add_to_elem_of, Hmem.
    assert (p = i ∨ p = i + 1 ∨ p < i ∨ i + 2 ≤ p) as Hp by lia.
    destruct Hp as [->| [->| [?|?]]]; intuition (subst; auto; lia).
  - by do 2 apply add_to_NoDup.
  - intros k p. rewrite !add_to_elem_of, Hmem.
    assert (p = i ∨ p < i ∨ i + 1 ≤ p) as Hp by lia.
    destruct Hp as [->| [?|?]]; intuition (subst; auto; lia).
  - by apply add_to_NoDup.
Qed.

Lemma sheets_loop_filed (bound : nat) : ∀ i s,
  (Z.to_nat (totalPages + 1 - i) ≤ bound)%nat →
  Z.odd i = true → 1 ≤ i →
  filed_below (get_or_false pageMap) totalPages i s →
  filed_below (get_or_false pageMap) totalPages (totalPages + 1)
    (sheets_loop pageMap totalPages i s).
Proof.
  induction bound as [|bound IH]; intros i s Hbound Hodd Hi Hinv;
    rewrite sheets_loop_step; destruct (decide (i ≤ totalPages)) as [Hle|Hgt].
  - lia.
  - destruct Hinv as [Hmem Hnd]. split; [|done].
    intros k p. rewrite Hmem. intuition lia.
  - apply IH; [lia| |lia|by apply filed_below_body].
    rewrite Z.odd_add, Hodd. reflexivity.
  - destruct Hinv as [Hmem Hnd]. split; [|done].
    intros k p. rewrite Hmem. intuition lia.
Qed.

Lemma sheets_loop_result :
  filed_below (get_or_false pageMap) totalPages (totalPages + 1)
    (sheets_loop pageMap totalPages 1 empty_sets).
Proof.
  apply (sheets_loop_filed (Z.to_nat totalPages)); [lia|done|lia|].
  apply filed_below_start.
Qed.

End sheet_loop.

(** Membership in the four output arrays. *)
Lemma calculateSmartSplitStats_elem_of pages totalPages k p :
  p ∈ pages_of k (calculateSmartSplitStats pages totalPages) ↔
  1 ≤ p ≤ totalPages ∧
  bucket_of (get_or_false (build_pageMap pages)) totalPages p = k.
Proof.
  destruct (sheets_loop_result (build_pageMap pages) totalPages) as [Hmem _].
  transitivity (p ∈ set_of k
    (sheets_loop (build_pageMap pages) totalPages 1 empty_sets)).
  - destruct k; simpl; apply sort_numeric_elem_of.
  - rewrite Hmem. intuition lia.
Qed.

Lemma calculateSmartSplitStats_sorted pages totalPages k :
  StronglySorted Z.lt (pages_of k (calculateSmartSplitStats pages totalPages)).
Proof.
  destruct (sheets_loop_result (build_pageMap pages) totalPages) as [_ Hnd].
  specialize (Hnd k). destruct k; simpl in *; by apply sort_numeric_strict.
Qed.

(** *** The page map *)

Lemma build_pageMap_snoc pages e :
  build_pageMap (pages ++ [e])
  = <[Page.pageNumber e := Page.isColor e]> (build_pageMap pages).
Proof. unfold build_pageMap. by rewrite foldl_app. Qed.

(** [Map.set] overwrites: the last record of a page decides. *)
Lemma build_pageMap_lookup pages p :
  build_pageMap pages !! p
  = Page.isColor <$> last (filter (λ e, Page.pageNumber e = p) pages).
Proof.
  induction pages as [|e pages IH] using rev_ind; [done|].
  rewrite build_pageMap_snoc, filter_app.
  destruct (decide (Page.pageNumber e = p)) as [Heq|Hne].
  - rewrite filter_cons_True, filter_nil, last_snoc by done.
    rewrite Heq. apply lookup_insert_eq.
  - rewrite filter_cons_False, filter_nil, app_nil_r by done.
    rewrite lookup_insert_ne by done. apply IH.
Qed.

Lemma get_or_false_status pages p :
  get_or_false (build_pageMap pages) p = status_of pages p.
Proof. unfold get_or_false, status_of. by rewrite build_pageMap_lookup. Qed.

Lemma status_of_filter (Q : Page.t → Prop) `{!∀ e, Decision (Q e)} pages p :
  (∀ e, Page.pageNumber e = p → Q e) →
  status_of (filter Q pages) p = status_of pages p.
Proof.
  intros Hp. unfold status_of. do 3 f_equal.
  rewrite list_filter_filter. apply list_filter_iff.
  intros e. split; [tauto|]. intros Heq. split; [done|by apply Hp].
Qed.

(** With one record per page the status of a page is the [isColor] of
    its record. *)
Lemma status_of_unique pages p c :
  NoDup (Page.pageNumber <$> pages) →
  Page.mk p c ∈ pages → status_of pages p = c.
Proof.
  intros Hnd Hin. unfold status_of.
  induction pages as [|e pages IH] using rev_ind.
  { by apply elem_of_nil in Hin. }
  rewrite fmap_app in Hnd. apply NoDup_app in Hnd as (Hnd & Hfresh & _).
  rewrite filter_app.
  apply elem_of_app in Hin as [Hin|Hin%list_elem_of_singleton].
  - rewrite filter_cons_False, filter_nil, app_nil_r; [by apply IH|].
    intros Heq. apply (Hfresh p).
    + apply list_elem_of_fmap. by exists (Page.mk p c).
    + rewrite <- Heq. simpl. left.
  - subst e. rewrite filter_cons_True, filter_nil, last_snoc; done.
Qed.

Lemma status_of_absent pages p :
  (∀ e, e ∈ pages → Page.pageNumber e ≠ p) → status_of pages p = false.
Proof.
  intros Habs. unfold status_of.
  replace (filter (λ e, Page.pageNumber e = p) pages) with (@nil Page.t);
    [done|].
  induction pages as [|e pages IH]; [done|].
  rewrite filter_cons_False.
  - apply IH. intros e' He'. apply Habs. by right.
  - apply Habs. left.
Qed.

(** *** Only the statuses of pages [1..totalPages] are read *)

Lemma sheet_body_ext m1 m2 totalPages i s :
  (∀ p, 1 ≤ p ≤ totalPages → get_or_false m1 p = get_or_false m2 p) →
  1 ≤ i ≤ totalPages →
  sheet_body m1 totalPages i s = sheet_body m2 totalPages i s.
Proof.
  intros Hext Hi. unfold sheet_body. cbv zeta.
  rewrite (Hext i Hi).
  destruct (bool_decide (i + 1 ≤ totalPages)) eqn:Hb; [|done].
  apply bool_decide_eq_true_1 in Hb.
  rewrite (Hext (i + 1)) by lia. reflexivity.
Qed.

Lemma sheets_loop_ext m1 m2 totalPages (bound : nat) : ∀ i s,
  (Z.to_nat (totalPages + 1 - i) ≤ bound)%nat →
  (∀ p, 1 ≤ p ≤ totalPages → get_or_false m1 p = get_or_false m2 p) →
  1 ≤ i →
  sheets_loop m1 totalPages i s = sheets_loop m2 totalPages i s.
Proof.
  induction bound as [|bound IH]; intros i s Hbound Hext Hi;
    rewrite (sheets_loop_step m1), (sheets_loop_step m2);
    destruct (decide (i ≤ totalPages)) as [Hle|Hgt]; try done; [lia|].
  rewrite (sheet_body_ext m1 m2) by (done || lia).
  apply IH; [lia|done|lia].
Qed.

Lemma calculateSmartSplitStats_ext pages1 pages2 totalPages :
  (∀ p, 1 ≤ p ≤ totalPages → status_of pages1 p = status_of pages2 p) →
  calculateSmartSplitStats pages1 totalPages
  = calculateSmartSplitStats pages2 totalPages.
Proof.
  intros Hext. unfold calculateSmartSplitStats. cbv zeta.
  rewrite (sheets_loop_ext (build_pageMap pages1) (build_pageMap pages2)
             totalPages (Z.to_nat totalPages)); [done|lia| |lia].
  intros p Hp. rewrite !get_or_false_status. by apply Hext.
Qed.

(** C1. Whatever the classification list and [totalPages] (in particular
    for every [totalPages >= 0]), the four arrays returned by
    [calculateSmartSplitStats] are pairwise disjoint, each is strictly
    ascending and duplicate-free, and together they hold exactly the pages
    [1 .. totalPages]. *)
Theorem calculateSmartSplitStats_partition (pages : list Page.t) (totalPages : Z) :
  let r := calculateSmartSplitStats pages totalPages in
  let dc := Stats.doubleColorSheets r in
  let dbw := Stats.doubleBWSheets r in
  let mc := Stats.mixedColorPages r in
  let mbw := Stats.mixedBWPages r in
  (∀ p, p ∈ dc ∨ p ∈ dbw ∨ p ∈ mc ∨ p ∈ mbw ↔ 1 ≤ p ≤ totalPages) ∧
  (∀ p, ¬ (p ∈ dc ∧ p ∈ dbw)) ∧ (∀ p, ¬ (p ∈ dc ∧ p ∈ mc)) ∧
  (∀ p, ¬ (p ∈ dc ∧ p ∈ mbw)) ∧ (∀ p, ¬ (p ∈ dbw ∧ p ∈ mc)) ∧
  (∀ p, ¬ (p ∈ dbw ∧ p ∈ mbw)) ∧ (∀ p, ¬ (p ∈ mc ∧ p ∈ mbw)) ∧
  (StronglySorted Z.lt dc ∧ NoDup dc) ∧ (StronglySorted Z.lt dbw ∧ NoDup dbw) ∧
  (StronglySorted Z.lt mc ∧ NoDup mc) ∧ (StronglySorted Z.lt mbw ∧ NoDup mbw).
Proof.
  intros r dc dbw mc mbw.
  pose proof (λ k, calculateSmartSplitStats_elem_of pages totalPages k) as Hmem.
  pose proof (λ k, calculateSmartSplitStats_sorted pages totalPages k) as Hsorted.
  assert (∀ k1 k2 p, k1 ≠ k2 → ¬ (p ∈ pages_of k1 r ∧ p ∈ pages_of k2 r))
    as Hdisj.
  { intros k1 k2 p Hne [[_ H1]%Hmem [_ H2]%Hmem]. congruence. }
  split_and!.
  - intros p. split.
    + intros [Hp|[Hp|[Hp|Hp]]].
      * by apply (Hmem DoubleColor) in Hp as [? _].
      * by apply (Hmem DoubleBW) in Hp as [? _].
      * by apply (Hmem MixedColor) in Hp as [? _].
      * by apply (Hmem MixedBW) in Hp as [? _].
    + intros Hp.
      destruct (bucket_of (get_or_false (build_pageMap pages)) totalPages p)
        eqn:Hk.
      * left. by apply (Hmem DoubleColor).
      * right; left. by apply (Hmem DoubleBW).
      * do 2 right; left. by apply (Hmem MixedColor).
      * do 3 right. by apply (Hmem MixedBW).
  - intros p. by apply (Hdisj DoubleColor DoubleBW).
  - intros p. by apply (Hdisj DoubleColor MixedColor).
  - intros p. by apply (Hdisj DoubleColor MixedBW).
  - intros p. by apply (Hdisj DoubleBW MixedColor).
  - intros p. by apply (Hdisj DoubleBW MixedBW).
  - intros p. by apply (Hdisj MixedColor MixedBW).
  - apply (Hsorted DoubleColor).
  - apply strict_sorted_NoDup, (Hsorted DoubleColor).
  - apply (Hsorted DoubleBW).
  - apply strict_sorted_NoDup, (Hsorted DoubleBW).
  - apply (Hsorted MixedColor).
  - apply strict_sorted_NoDup, (Hsorted MixedColor).
  - apply (Hsorted MixedBW).
  - apply strict_sorted_NoDup, (Hsorted MixedBW).
Qed.

Lemma bucket_of_ext c1 c2 totalPages p :
  (∀ q, c1 q = c2 q) → bucket_of c1 totalPages p = bucket_of c2 totalPages p.
Proof. intros Hext. unfold bucket_of. by rewrite !Hext. Qed.

(** Membership in the output arrays in terms of the effective statuses. *)
Lemma calculateSmartSplitStats_filed pages totalPages k p :
  p ∈ pages_of k (calculateSmartSplitStats pages totalPages) ↔
  1 ≤ p ≤ totalPages ∧ bucket_of (status_of pages) totalPages p = k.
Proof.
  rewrite calculateSmartSplitStats_elem_of.
  by rewrite (bucket_of_ext _ (status_of pages))
    by apply get_or_false_status.
Qed.

Lemma bucket_of_front color totalPages i :
  Z.odd i = true → i + 1 ≤ totalPages →
  bucket_of color totalPages i =
  if color i && color (i + 1) then DoubleColor
  else if negb (color i) && negb (color (i + 1)) then DoubleBW
  else if color i then MixedColor else MixedBW.
Proof.
  intros Hodd Hb. unfold bucket_of. cbv zeta. rewrite sheet_front_odd by done.
  destruct (decide (totalPages < i + 1)); [lia|done].
Qed.

Lemma bucket_of_back color totalPages i :
  Z.odd i = true → i + 1 ≤ totalPages →
  bucket_of color totalPages (i + 1) =
  if color i && color (i + 1) then DoubleColor
  else if negb (color i) && negb (color (i + 1)) then DoubleBW
  else if color (i + 1) then MixedColor else MixedBW.
Proof.
  intros Hodd Hb. unfold bucket_of. cbv zeta. rewrite sheet_front_even by done.
  destruct (decide (totalPages < i + 1)); [lia|done].
Qed.

Lemma bucket_of_trailing color totalPages i :
  Z.odd i = true → totalPages < i + 1 →
  bucket_of color totalPages i = if color i then MixedColor else MixedBW.
Proof.
  intros Hodd Hb. unfold bucket_of. cbv zeta. rewrite sheet_front_odd by done.
  destruct (decide (totalPages < i + 1)); [done|lia].
Qed.

(** C2. For every odd sheet index [i] of the loop, with [a] and [b] the
    effective statuses of pages [i] and [i + 1].  When page [i + 1] exists:
    both pages are in [doubleColorSheets] exactly when both are colour, both
    in [doubleBWSheets] exactly when both are B&W, and on a mixed sheet, and
    only there, each page is in [mixedColorPages] or [mixedBWPages] by its
    own status.  When [i + 1 > totalPages]: the trailing page [i] is in
    [mixedColorPages] exactly when it is colour, in [mixedBWPages] exactly
    when it is not, in neither double array, and page [i + 1] is in no
    array.  For six pages with statuses T,T,F,F,T,F the result is [1,2],
    [3,4], [5], [6]. *)
Theorem calculateSmartSplitStats_sheet_rule :
  (∀ (pages : list Page.t) (totalPages i : Z),
     Z.odd i = true → 1 ≤ i ≤ totalPages →
     let r := calculateSmartSplitStats pages totalPages in
     let a := status_of pages i in
     let b := status_of pages (i + 1) in
     (i + 1 ≤ totalPages →
        (i ∈ Stats.doubleColorSheets r ↔ a = true ∧ b = true) ∧
        (i + 1 ∈ Stats.doubleColorSheets r ↔ a = true ∧ b = true) ∧
        (i ∈ Stats.doubleBWSheets r ↔ a = false ∧ b = false) ∧
        (i + 1 ∈ Stats.doubleBWSheets r ↔ a = false ∧ b = false) ∧
        (i ∈ Stats.mixedColorPages r ↔ a = true ∧ b = false) ∧
        (i ∈ Stats.mixedBWPages r ↔ a = false ∧ b = true) ∧
        (i + 1 ∈ Stats.mixedColorPages r ↔ b = true ∧ a = false) ∧
        (i + 1 ∈ Stats.mixedBWPages r ↔ b = false ∧ a = true)) ∧
     (totalPages < i + 1 →
        (i ∈ Stats.mixedColorPages r ↔ a = true) ∧
        (i ∈ Stats.mixedBWPages r ↔ a = false) ∧
        ¬ i ∈ Stats.doubleColorSheets r ∧
        ¬ i ∈ Stats.doubleBWSheets r ∧
        ∀ k, ¬ i + 1 ∈ pages_of k r)) ∧
  calculateSmartSplitStats
    [Page.mk 1 true; Page.mk 2 true; Page.mk 3 false;
     Page.mk 4 false; Page.mk 5 true; Page.mk 6 false] 6
  = {| Stats.doubleColorSheets := [1; 2]; Stats.doubleBWSheets := [3; 4];
       Stats.mixedColorPages := [5]; Stats.mixedBWPages := [6] |}.
Proof.
  split; [|by vm_compute].
  intros pages totalPages i Hodd Hi r a b.
  pose proof (λ k, calculateSmartSplitStats_filed pages totalPages k i) as HA.
  pose proof (λ k, calculateSmartSplitStats_filed pages totalPages k (i + 1))
    as HB.
  fold r in HA, HB. split; intros Hb.
  - rewrite bucket_of_front in HA by done.
    rewrite bucket_of_back in HB by done.
    fold a b in HA, HB.
    pose proof (HA DoubleColor) as HA1. pose proof (HA DoubleBW) as HA2.
    pose proof (HA MixedColor) as HA3. pose proof (HA MixedBW) as HA4.
    pose proof (HB DoubleColor) as HB1. pose proof (HB DoubleBW) as HB2.
    pose proof (HB MixedColor) as HB3. pose proof (HB MixedBW) as HB4.
    clear HA HB. cbn [pages_of] in *.
    rewrite HA1, HA2, HA3, HA4, HB1, HB2, HB3, HB4.
    clear HA1 HA2 HA3 HA4 HB1 HB2 HB3 HB4.
    destruct a, b; simpl; split_and!; intuition (congruence || lia).
  - rewrite bucket_of_trailing in HA by done. fold a in HA.
    pose proof (HA DoubleColor) as HA1. pose proof (HA DoubleBW) as HA2.
    pose proof (HA MixedColor) as HA3. pose proof (HA MixedBW) as HA4.
    cbn [pages_of] in *. rewrite HA1, HA2, HA3, HA4.
    split_and!.
    + destruct a; intuition (congruence || lia).
    + destruct a; intuition (congruence || lia).
    + destruct a; intuition congruence.
    + destruct a; intuition congruence.
    + intros k. rewrite HB. lia.
Qed.

Lemma calculateSmartSplitStats_sheet_rule_witness :
  let r :=
    calculateSmartSplitStats
      [Page.mk 1 true; Page.mk 2 true; Page.mk 3 false;
       Page.mk 4 false; Page.mk 5 true] 5 in
  (5 ∈ Stats.mixedColorPages r ↔ true = true) ∧
  (5 ∈ Stats.mixedBWPages r ↔ true = false) ∧
  ¬ 5 ∈ Stats.doubleColorSheets r ∧
  ¬ 5 ∈ Stats.doubleBWSheets r ∧
  ∀ k, ¬ 6 ∈ pages_of k r.
Proof.
  refine (proj2 (proj1 calculateSmartSplitStats_sheet_rule
    [Page.mk 1 true; Page.mk 2 true; Page.mk 3 false;
     Page.mk 4 false; Page.mk 5 true] 5 5 _ _) _).
  - reflexivity.
  - lia.
  - lia.
Defined.

(** C5. A page of [1 .. totalPages] without a classification record is
    looked up as B&W: the result is the one obtained with an explicit B&W
    record for that page, and the page lands in one of the two B&W arrays. *)
Theorem calculateSmartSplitStats_missing_is_bw
    (pages : list Page.t) (totalPages p : Z) :
  1 ≤ p ≤ totalPages →
  (∀ e, e ∈ pages → Page.pageNumber e ≠ p) →
  let r := calculateSmartSplitStats pages totalPages in
  get_or_false (build_pageMap pages) p = false ∧
  r = calculateSmartSplitStats (pages ++ [Page.mk p false]) totalPages ∧
  (p ∈ Stats.doubleBWSheets r ∨ p ∈ Stats.mixedBWPages r) ∧
  ¬ p ∈ Stats.doubleColorSheets r ∧ ¬ p ∈ Stats.mixedColorPages r.
Proof.
  intros Hp Habs r.
  pose proof (status_of_absent pages p Habs) as Hstatus.
  assert (∀ k, p ∈ pages_of k r ↔ bucket_of (status_of pages) totalPages p = k)
    as Hmem.
  { intros k. unfold r. rewrite calculateSmartSplitStats_filed. tauto. }
  assert (bucket_of (status_of pages) totalPages p = DoubleBW
          ∨ bucket_of (status_of pages) totalPages p = MixedBW) as Hk.
  { unfold bucket_of. cbv zeta. rewrite Hstatus.
    destruct (decide (totalPages < sheet_front p + 1)); [by right|].
    unfold sheet_front in *. destruct (Z.odd p).
    - rewrite Hstatus. simpl. destruct (status_of pages (p + 1)); auto.
    - replace (p - 1 + 1) with p by lia. rewrite Hstatus.
      destruct (status_of pages (p - 1)); auto. }
  split_and!.
  - by rewrite get_or_false_status.
  - apply calculateSmartSplitStats_ext. intros q _. unfold status_of.
    rewrite filter_app. destruct (decide (p = q)) as [->|Hne].
    + rewrite filter_cons_True, filter_nil, last_snoc by done.
      fold (status_of pages q). by rewrite Hstatus.
    + by rewrite filter_cons_False, filter_nil, app_nil_r by done.
  - destruct Hk as [Hk|Hk]; [left|right].
    + by apply (Hmem DoubleBW).
    + by apply (Hmem MixedBW).
  - intros Hin%(Hmem DoubleColor). destruct Hk; congruence.
  - intros Hin%(Hmem MixedColor). destruct Hk; congruence.
Qed.

Lemma calculateSmartSplitStats_missing_is_bw_witness :
  calculateSmartSplitStats [Page.mk 1 true] 2
  = calculateSmartSplitStats ([Page.mk 1 true] ++ [Page.mk 2 false]) 2
  ∧ (2 ∈ Stats.doubleBWSheets (calculateSmartSplitStats [Page.mk 1 true] 2)
     ∨ 2 ∈ Stats.mixedBWPages (calculateSmartSplitStats [Page.mk 1 true] 2)).
Proof.
  assert (∀ e, e ∈ [Page.mk 1 true] → Page.pageNumber e ≠ 2) as Habs.
  { intros e ->%list_elem_of_singleton. simpl. lia. }
  pose proof (calculateSmartSplitStats_missing_is_bw [Page.mk 1 true] 2 2
                ltac:(lia) Habs) as (_ & Heq & Hbw & _).
  exact (conj Heq Hbw).
Defined.

(** C6. The result does not depend on the order of the records: for an
    input with one record per page number, every permutation of it gives
    the same four arrays. *)
Theorem calculateSmartSplitStats_permutation
    (pages pages' : list Page.t) (totalPages : Z) :
  NoDup (Page.pageNumber <$> pages) →
  Permutation pages pages' →
  calculateSmartSplitStats pages totalPages
  = calculateSmartSplitStats pages' totalPages.
Proof.
  intros Hnd Hperm.
  assert (NoDup (Page.pageNumber <$> pages')) as Hnd' by (by rewrite <- Hperm).
  apply calculateSmartSplitStats_ext. intros p _.
  destruct (filter (λ e, Page.pageNumber e = p) pages) as [|[q c] l] eqn:Hf.
  - assert (∀ e, e ∈ pages → Page.pageNumber e ≠ p) as Habs.
    { intros e Hin Heq. apply (elem_of_nil e). rewrite <- Hf.
      by apply list_elem_of_filter. }
    rewrite !status_of_absent; [done| |done].
    intros e Hin. apply Habs. by rewrite Hperm.
  - assert (Page.mk q c ∈ filter (λ e, Page.pageNumber e = p) pages) as Hin
      by (rewrite Hf; left).
    apply list_elem_of_filter in Hin as [Heq Hin]. simpl in Heq. subst q.
    rewrite (status_of_unique pages p c) by done.
    symmetry. apply status_of_unique; [done|]. by rewrite <- Hperm.
Qed.

Lemma calculateSmartSplitStats_permutation_witness :
  calculateSmartSplitStats [Page.mk 1 true; Page.mk 2 false; Page.mk 3 true] 3
  = calculateSmartSplitStats [Page.mk 3 true; Page.mk 1 true; Page.mk 2 false] 3.
Proof.
  apply calculateSmartSplitStats_permutation.
  - simpl. repeat constructor; rewrite ?elem_of_cons, ?elem_of_nil; lia.
  - change ([Page.mk 1 true; Page.mk 2 false; Page.mk 3 true]
            ≡ₚ [Page.mk 3 true] ++ [Page.mk 1 true; Page.mk 2 false]).
    by rewrite (comm (++)).
Defined.

(** C10. Records whose page number lies outside [1 .. totalPages] have no
    effect: removing them from the input leaves the result unchanged. *)
Theorem calculateSmartSplitStats_out_of_range
    (pages : list Page.t) (totalPages : Z) :
  calculateSmartSplitStats pages totalPages
  = calculateSmartSplitStats
      (filter (λ e, 1 ≤ Page.pageNumber e ≤ totalPages) pages) totalPages.
Proof.
  apply calculateSmartSplitStats_ext. intros p Hp. symmetry.
  apply status_of_filter. intros e ->. exact Hp.
Qed.

(** C9 (as stated, refuted).  An input with a zero, a negative and a
    duplicated page number does not make the call fail. *)
Lemma bucketize_invalid_page_numbers_returns :
  let pages :=
    [Page.mk 0 true; Page.mk (-3) true; Page.mk 1 true; Page.mk 1 false] in
  invalid_page_numbers pages ∧
  bucketize pages 2 ≠ Throws InvalidPageNumberError ∧
  bucketize pages 2
  = Returns {| Stats.doubleColorSheets := []; Stats.doubleBWSheets := [1; 2];
               Stats.mixedColorPages := []; Stats.mixedBWPages := [] |}.
Proof.
  split_and!.
  - left. exists (Page.mk 0 true). split; [left|simpl; lia].
  - discriminate.
  - by vm_compute.
Qed.

(** C9 (amended).  [calculateSmartSplitStats] has no failure path: every
    call returns.  Records with a zero or negative page number are ignored,
    of several records for one page the last decides its status, and every
    page of [1 .. totalPages] is filed, under its own number, in the array
    of its bucket. *)
Theorem bucketize_never_fails (pages : list Page.t) (totalPages : Z) :
  ∃ r, bucketize pages totalPages = Returns r ∧
       r = calculateSmartSplitStats
             (filter (λ e, 0 < Page.pageNumber e) pages) totalPages ∧
       ∀ k p, p ∈ pages_of k r ↔
              1 ≤ p ≤ totalPages ∧ bucket_of (status_of pages) totalPages p = k.
Proof.
  exists (calculateSmartSplitStats pages totalPages). split_and!.
  - reflexivity.
  - apply calculateSmartSplitStats_ext. intros p Hp. symmetry.
    apply status_of_filter. intros e ->. lia.
  - intros k p. apply calculateSmartSplitStats_filed.
Qed.

(** * Further properties: the callers of the three utilities *)

(** ** The page list of the analyzer hook *)





(** X2. With the thresholds the app passes (32 and 0.002), a page whose
    rendering has only grey pixels is detected as B&W, whatever the length
    of the buffer. *)
Theorem analyzed_page_gray (i : Z) (data : list Byte.byte) (url : string) :
  Forall gray (read_groups data) →
  PageData.isColorDetected (analyzed_page i data url) = false
  ∧ PageData.colorPixelCount (analyzed_page i data url) = 0.
Proof.
  intros Hgray.
  assert (PageData.colorPixelCount (analyzed_page i data url) = 0) as Hzero.
  { unfold analyzed_page. cbn [PageData.colorPixelCount].
    rewrite colorPixels_count. by apply count_color_gray. }
  split; [|done].
  unfold analyzed_page, analyzeImagePixelData in *. cbv zeta in *.
  cbn [PageData.isColorDetected PageData.colorPixelCount Analysis.isColor
       Analysis.colorPixels] in *.
  rewrite Hzero. change (F64.of_Z 0) with F64.zero.
  destruct (div_zero_l (F64.div (F64.of_Z (Z.of_nat (length data))) (F64.of_Z 4)))
    as [[s ->]| ->].
  - by rewrite gt_zero_sign.
  - apply gt_nan_l.
Qed.

Lemma analyzed_page_gray_witness :
  PageData.isColorDetected
    (analyzed_page 1 ["090"; "090"; "090"; "255"; "012"; "012"; "012"]%byte "")
  = false.
Proof.
  apply (analyzed_page_gray 1
           ["090"; "090"; "090"; "255"; "012"; "012"; "012"]%byte "").
  repeat constructor.
Defined.

Lemma togglePageStatus_pageNumbers n pages :
  PageData.pageNumber <$> togglePageStatus n pages
  = PageData.pageNumber <$> pages.
Proof.
  unfold togglePageStatus. rewrite <- list_fmap_compose.
  apply list_fmap_ext. intros k p _. simpl. by case_decide.
Qed.

Lemma batchUpdatePageStatus_pageNumbers ns c pages :
  PageData.pageNumber <$> batchUpdatePageStatus ns c pages
  = PageData.pageNumber <$> pages.
Proof.
  unfold batchUpdatePageStatus. cbv zeta. rewrite <- list_fmap_compose.
  apply list_fmap_ext. intros k p _. simpl. by case_decide.
Qed.

(** X3. Neither update adds, drops, reorders or renumbers pages, and
    neither touches what the analysis recorded (detection result, pixel
    counts, thumbnail); a well-numbered list stays well numbered. *)
Theorem page_updates_keep_pages
    (pages : list PageData.t) (n : Z) (ns : list Z) (c : bool) :
  let analysed (p : PageData.t) :=
    (PageData.pageNumber p, PageData.thumbnailUrl p, PageData.isColorDetected p,
     PageData.pixelCount p, PageData.colorPixelCount p) in
  analysed <$> togglePageStatus n pages = analysed <$> pages ∧
  analysed <$> batchUpdatePageStatus ns c pages = analysed <$> pages ∧
  (well_numbered pages →
   well_numbered (togglePageStatus n pages) ∧
   well_numbered (batchUpdatePageStatus ns c pages)).
Proof.
  intros analysed. split_and!.
  - unfold togglePageStatus. rewrite <- list_fmap_compose.
    apply list_fmap_ext. intros k p _. simpl. by case_decide.
  - unfold batchUpdatePageStatus. cbv zeta. rewrite <- list_fmap_compose.
    apply list_fmap_ext. intros k p _. simpl. by case_decide.
  - unfold well_numbered. intros Hwn.
    rewrite togglePageStatus_pageNumbers, batchUpdatePageStatus_pageNumbers.
    unfold togglePageStatus, batchUpdatePageStatus. cbv zeta.
    by rewrite !length_fmap.
Qed.

(** X4. Toggling a page twice restores every effective status, hence the
    smart-split result, but not the records: each page with that number
    is left with its effective status pinned as an override, so a page
    never goes back to "no override". *)
Theorem togglePageStatus_twice (n : Z) (pages : list PageData.t) :
  togglePageStatus n (togglePageStatus n pages)
  = (λ p, if decide (PageData.pageNumber p = n)
          then with_isColorUserForced p (effective_color p) else p) <$> pages
  ∧ effective_color <$> togglePageStatus n (togglePageStatus n pages)
    = effective_color <$> pages
  ∧ smartStats (togglePageStatus n (togglePageStatus n pages))
    = smartStats pages.
Proof.
  assert (togglePageStatus n (togglePageStatus n pages)
          = (λ p, if decide (PageData.pageNumber p = n)
                  then with_isColorUserForced p (effective_color p) else p)
            <$> pages) as Heq.
  { unfold togglePageStatus. rewrite <- list_fmap_compose.
    apply list_fmap_ext. intros k p _. simpl.
    destruct (decide (PageData.pageNumber p ≠ n)) as [Hne|Heq].
    - rewrite decide_True by done. by rewrite decide_False by done.
    - assert (PageData.pageNumber p = n) as Hn
        by (destruct (decide (PageData.pageNumber p = n)); [done|tauto]).
      simpl. rewrite decide_False by (simpl; tauto).
      rewrite decide_True by done.
      unfold with_isColorUserForced, effective_color. simpl.
      by rewrite negb_involutive. }
  assert (simplifiedPages (togglePageStatus n (togglePageStatus n pages))
          = simplifiedPages pages) as Hsimp.
  { rewrite Heq. unfold simplifiedPages. rewrite <- list_fmap_compose.
    apply list_fmap_ext. intros k p _. simpl. by case_decide. }
  split_and!; [done| |].
  - rewrite Heq, <- list_fmap_compose.
    apply list_fmap_ext. intros k p _. simpl. by case_decide.
  - unfold smartStats. rewrite Hsimp. do 2 f_equal.
    unfold togglePageStatus. by rewrite !length_fmap.
Qed.

Lemma batchUpdatePageStatus_map ns c pages :
  batchUpdatePageStatus ns c pages
  = (λ p, if decide (PageData.pageNumber p ∈ ns)
          then with_isColorUserForced p c else p) <$> pages.
Proof.
  unfold batchUpdatePageStatus. cbv zeta.
  apply list_fmap_ext. intros k p _.
  destruct (decide (PageData.pageNumber p ∈ ns)) as [Hin|Hout].
  - by rewrite decide_True by (by apply new_Set_elem_of).
  - rewrite decide_False; [done|]. by rewrite new_Set_elem_of.
Qed.

(** X5. A batch update depends only on the set of selected page numbers;
    repeating it on the same selection lets the last colour win, and two
    batches with the same colour amount to one batch on the union of the
    selections. *)
Theorem batchUpdatePageStatus_compose
    (ns ns' : list Z) (c c' : bool) (pages : list PageData.t) :
  ((∀ x, x ∈ ns ↔ x ∈ ns') →
   batchUpdatePageStatus ns c pages = batchUpdatePageStatus ns' c pages) ∧
  batchUpdatePageStatus ns c (batchUpdatePageStatus ns c' pages)
  = batchUpdatePageStatus ns c pages ∧
  batchUpdatePageStatus ns c (batchUpdatePageStatus ns' c pages)
  = batchUpdatePageStatus (ns ++ ns') c pages.
Proof.
  split_and!.
  - intros Hset. rewrite !batchUpdatePageStatus_map.
    apply list_fmap_ext. intros k p _.
    destruct (decide (PageData.pageNumber p ∈ ns)) as [Hin|Hout].
    + by rewrite decide_True by (by apply Hset).
    + rewrite decide_False; [done|]. by rewrite <- Hset.
  - rewrite !batchUpdatePageStatus_map, <- list_fmap_compose.
    apply list_fmap_ext. intros k p _. simpl.
    repeat (case_decide; simpl in * ); try done; tauto.
  - rewrite !batchUpdatePageStatus_map, <- list_fmap_compose.
    apply list_fmap_ext. intros k p _. simpl.
    repeat (case_decide; simpl in * ); rewrite ?elem_of_app in *;
      try done; tauto.
Qed.

(** ** The smart-split result as the app computes it *)

(** The status [calculateSmartSplitStats] sees for page [q] after every
    record went through a number-preserving update [f]. *)
Lemma status_of_simplified_fmap (f : PageData.t → PageData.t) pages q :
  (∀ p, PageData.pageNumber (f p) = PageData.pageNumber p) →
  status_of (simplifiedPages (f <$> pages)) q
  = default false
      (effective_color ∘ f
         <$> last (filter (λ p, PageData.pageNumber p = q) pages)).
Proof.
  intros Hf. unfold status_of, simplifiedPages.
  induction pages as [|e pages IH] using rev_ind; [done|].
  rewrite !fmap_app, !filter_app. simpl.
  destruct (decide (PageData.pageNumber e = q)) as [Heq|Hne].
  - rewrite (filter_cons_True _ e) by done.
    rewrite filter_cons_True by (simpl; by rewrite Hf).
    by rewrite !filter_nil, !last_snoc.
  - rewrite (filter_cons_False _ e) by done.
    rewrite filter_cons_False by (simpl; by rewrite Hf).
    by rewrite !filter_nil, !app_nil_r.
Qed.

Lemma status_of_simplified pages q :
  status_of (simplifiedPages pages) q
  = default false
      (effective_color <$> last (filter (λ p, PageData.pageNumber p = q) pages)).
Proof.
  rewrite <- (list_fmap_id pages) at 1.
  by rewrite (status_of_simplified_fmap id).
Qed.

Lemma last_filter_is_Some pages q :
  q ∈ PageData.pageNumber <$> pages →
  is_Some (last (filter (λ p, PageData.pageNumber p = q) pages)).
Proof.
  intros (p & -> & Hin)%list_elem_of_fmap.
  assert (p ∈ filter (λ p', PageData.pageNumber p' = PageData.pageNumber p) pages)
    as Hf by (by apply list_elem_of_filter).
  destruct (filter _ pages) as [|x l] using rev_ind.
  - by apply elem_of_nil in Hf.
  - rewrite last_snoc. eauto.
Qed.

Lemma status_of_toggle n pages q :
  status_of (simplifiedPages (togglePageStatus n pages)) q
  = if decide (q = n ∧ n ∈ PageData.pageNumber <$> pages)
    then negb (status_of (simplifiedPages pages) q)
    else status_of (simplifiedPages pages) q.
Proof.
  unfold togglePageStatus.
  rewrite status_of_simplified_fmap by (intros p; by case_decide).
  rewrite status_of_simplified.
  destruct (last (filter (λ p, PageData.pageNumber p = q) pages))
    as [p|] eqn:Hlast.
  - assert (PageData.pageNumber p = q ∧ p ∈ pages) as [Hq Hin].
    { apply last_Some_elem_of in Hlast.
      by apply list_elem_of_filter in Hlast. }
    simpl. destruct (decide (PageData.pageNumber p ≠ n)) as [Hne|Heq].
    + rewrite decide_False; [done|]. intros [-> _]. done.
    + assert (PageData.pageNumber p = n) as Hn
        by (destruct (decide (PageData.pageNumber p = n)); [done|tauto]).
      rewrite decide_True; [done|]. split; [congruence|].
      apply list_elem_of_fmap. exists p. by rewrite Hn.
  - simpl. case_decide as Hc; [|done]. destruct Hc as [-> Hin].
    apply last_filter_is_Some in Hin as [p Hp]. congruence.
Qed.

Lemma sheet_front_cases q :
  (sheet_front q = q ∨ sheet_front q + 1 = q) ∧ Z.odd (sheet_front q) = true.
Proof.
  unfold sheet_front. destruct (Z.odd q) eqn:Hodd; [auto|].
  split; [right; lia|].
  replace (q - 1) with (q + -1) by lia. by rewrite Z.odd_add, Hodd.
Qed.

Lemma sheet_front_of_pair a :
  Z.odd a = true → sheet_front a = a ∧ sheet_front (a + 1) = a.
Proof. intros Ha. by rewrite sheet_front_odd, sheet_front_even. Qed.

(** The bucket of a page depends only on the statuses of the two pages of
    its sheet. *)
Lemma bucket_of_sheet_ext c1 c2 totalPages q :
  c1 (sheet_front q) = c2 (sheet_front q) →
  c1 (sheet_front q + 1) = c2 (sheet_front q + 1) →
  bucket_of c1 totalPages q = bucket_of c2 totalPages q.
Proof.
  intros Ha Hb. unfold bucket_of. cbv zeta. rewrite Ha, Hb.
  destruct (sheet_front_cases q) as [[Hq|Hq] _].
  - rewrite Hq in Ha. by rewrite Ha.
  - rewrite Hq in Hb. by rewrite Hb.
Qed.

(** A page is filed on the colour side exactly when its status is colour. *)
Lemma bucket_of_color_side color totalPages q :
  (bucket_of color totalPages q = DoubleColor
   ∨ bucket_of color totalPages q = MixedColor) ↔ color q = true.
Proof.
  unfold bucket_of. cbv zeta.
  destruct (sheet_front_cases q) as [[Hq|Hq] _]; rewrite Hq;
    destruct (decide (totalPages < _));
    destruct (color q) eqn:Hc; try rewrite Hc;
    repeat match goal with
           | |- context [color ?x] => destruct (color x)
           end; simpl; intuition congruence.
Qed.

Lemma calculateSmartSplitStats_color_side_aux
    (pages : list Page.t) (totalPages p : Z) :
  let r := calculateSmartSplitStats pages totalPages in
  (p ∈ Stats.doubleColorSheets r ∨ p ∈ Stats.mixedColorPages r
   ↔ 1 ≤ p ≤ totalPages ∧ status_of pages p = true) ∧
  (p ∈ Stats.doubleBWSheets r ∨ p ∈ Stats.mixedBWPages r
   ↔ 1 ≤ p ≤ totalPages ∧ status_of pages p = false).
Proof.
  intros r.
  pose proof (λ k, calculateSmartSplitStats_filed pages totalPages k p) as Hmem.
  pose proof (bucket_of_color_side (status_of pages) totalPages p) as Hside.
  fold r in Hmem. split.
  - change (p ∈ pages_of DoubleColor r ∨ p ∈ pages_of MixedColor r
            ↔ 1 ≤ p ≤ totalPages ∧ status_of pages p = true).
    rewrite !Hmem. tauto.
  - change (p ∈ pages_of DoubleBW r ∨ p ∈ pages_of MixedBW r
            ↔ 1 ≤ p ≤ totalPages ∧ status_of pages p = false).
    rewrite !Hmem.
    destruct (bucket_of (status_of pages) totalPages p) eqn:Hk;
      destruct (status_of pages p); intuition congruence.
Qed.

(** X6. In the result of [calculateSmartSplitStats] a page is in one of
    the two colour arrays exactly when it is a page of the document whose
    effective status is colour, and in one of the two B&W arrays exactly
    when it is a page of the document whose status is B&W. *)
Theorem calculateSmartSplitStats_color_side
    (pages : list Page.t) (totalPages p : Z) :
  let r := calculateSmartSplitStats pages totalPages in
  (p ∈ Stats.doubleColorSheets r ∨ p ∈ Stats.mixedColorPages r
   ↔ 1 ≤ p ≤ totalPages ∧ status_of pages p = true) ∧
  (p ∈ Stats.doubleBWSheets r ∨ p ∈ Stats.mixedBWPages r
   ↔ 1 ≤ p ≤ totalPages ∧ status_of pages p = false).
Proof. apply calculateSmartSplitStats_color_side_aux. Qed.

(** X7. The two pages of a complete sheet are filed together: one is in
    [doubleColorSheets] exactly when the other is, likewise for
    [doubleBWSheets], and one is in [mixedColorPages] exactly when the
    other is in [mixedBWPages]. *)
Theorem calculateSmartSplitStats_sheet_pairs
    (pages : list Page.t) (totalPages i : Z) :
  Z.odd i = true → 1 ≤ i → i + 1 ≤ totalPages →
  let r := calculateSmartSplitStats pages totalPages in
  (i ∈ Stats.doubleColorSheets r ↔ i + 1 ∈ Stats.doubleColorSheets r) ∧
  (i ∈ Stats.doubleBWSheets r ↔ i + 1 ∈ Stats.doubleBWSheets r) ∧
  (i ∈ Stats.mixedColorPages r ↔ i + 1 ∈ Stats.mixedBWPages r) ∧
  (i ∈ Stats.mixedBWPages r ↔ i + 1 ∈ Stats.mixedColorPages r).
Proof.
  intros Hodd Hi Hb r.
  pose proof (λ k, calculateSmartSplitStats_filed pages totalPages k i) as HA.
  pose proof (λ k, calculateSmartSplitStats_filed pages totalPages k (i + 1))
    as HB.
  rewrite bucket_of_front in HA by done.
  rewrite bucket_of_back in HB by done.
  fold r in HA, HB.
  change (Stats.doubleColorSheets r) with (pages_of DoubleColor r).
  change (Stats.doubleBWSheets r) with (pages_of DoubleBW r).
  change (Stats.mixedColorPages r) with (pages_of MixedColor r).
  change (Stats.mixedBWPages r) with (pages_of MixedBW r).
  rewrite !HA, !HB.
  destruct (status_of pages i), (status_of pages (i + 1)); simpl;
    intuition (congruence || lia).
Qed.

Lemma calculateSmartSplitStats_sheet_pairs_witness :
  1 ∈ Stats.mixedColorPages
        (calculateSmartSplitStats [Page.mk 1 true; Page.mk 2 false] 2)
  ↔ 2 ∈ Stats.mixedBWPages
          (calculateSmartSplitStats [Page.mk 1 true; Page.mk 2 false] 2).
Proof.
  pose proof (calculateSmartSplitStats_sheet_pairs
                [Page.mk 1 true; Page.mk 2 false] 2 1
                eq_refl ltac:(lia) ltac:(lia)) as (_ & _ & Hmixed & _).
  exact Hmixed.
Defined.

Lemma togglePageStatus_length n pages :
  length (togglePageStatus n pages) = length pages.
Proof. unfold togglePageStatus. apply length_fmap. Qed.

Lemma smartStats_filed pages k q :
  q ∈ pages_of k (smartStats pages) ↔
  1 ≤ q ≤ Z.of_nat (length pages)
  ∧ bucket_of (status_of (simplifiedPages pages)) (Z.of_nat (length pages)) q = k.
Proof. apply calculateSmartSplitStats_filed. Qed.

(** X8. Toggling a page changes the filing of its own sheet only: every
    page of another sheet stays in the array it was in. *)
Theorem smartStats_toggle_other_sheets
    (pages : list PageData.t) (n q : Z) (k : bucket) :
  sheet_front q ≠ sheet_front n →
  q ∈ pages_of k (smartStats (togglePageStatus n pages))
  ↔ q ∈ pages_of k (smartStats pages).
Proof.
  intros Hsheet. rewrite !smartStats_filed, togglePageStatus_length.
  destruct (sheet_front_cases q) as [_ Hodd].
  destruct (sheet_front_of_pair _ Hodd) as [Hfa Hfb].
  rewrite (bucket_of_sheet_ext
             (status_of (simplifiedPages (togglePageStatus n pages)))
             (status_of (simplifiedPages pages))); [done| |].
  - rewrite status_of_toggle. rewrite decide_False; [done|].
    intros [Heq _]. rewrite <- Heq, Hfa in Hsheet. done.
  - rewrite status_of_toggle. rewrite decide_False; [done|].
    intros [Heq _]. rewrite <- Heq, Hfb in Hsheet. done.
Qed.

Lemma smartStats_toggle_other_sheets_witness :
  3 ∈ Stats.doubleBWSheets
        (smartStats
           (togglePageStatus 1
              (analyzeFile false [([], "", false); ([], "", false); ([], "", false); ([], "", false)])))
  ↔ 3 ∈ Stats.doubleBWSheets
          (smartStats (analyzeFile false [([], "", false); ([], "", false); ([], "", false); ([], "", false)])).
Proof.
  apply (smartStats_toggle_other_sheets
           (analyzeFile false [([], "", false); ([], "", false); ([], "", false); ([], "", false)]) 1 3 DoubleBW).
  vm_compute. discriminate.
Defined.

(** X9. Toggling a page of the document moves it to the other side: it
    is in a colour array before exactly when it is in a B&W array
    afterwards. *)
Theorem smartStats_toggle_flips (pages : list PageData.t) (n : Z) :
  n ∈ PageData.pageNumber <$> pages →
  1 ≤ n ≤ Z.of_nat (length pages) →
  let before := smartStats pages in
  let after := smartStats (togglePageStatus n pages) in
  (n ∈ Stats.doubleColorSheets before ∨ n ∈ Stats.mixedColorPages before
   ↔ n ∈ Stats.doubleBWSheets after ∨ n ∈ Stats.mixedBWPages after) ∧
  (n ∈ Stats.doubleBWSheets before ∨ n ∈ Stats.mixedBWPages before
   ↔ n ∈ Stats.doubleColorSheets after ∨ n ∈ Stats.mixedColorPages after).
Proof.
  intros Hin Hn before after.
  destruct (calculateSmartSplitStats_color_side_aux
              (simplifiedPages pages) (Z.of_nat (length pages)) n) as [Hc Hb].
  destruct (calculateSmartSplitStats_color_side_aux
              (simplifiedPages (togglePageStatus n pages))
              (Z.of_nat (length (togglePageStatus n pages))) n) as [Hc' Hb'].
  fold (smartStats pages) in Hc, Hb. fold before in Hc, Hb.
  fold (smartStats (togglePageStatus n pages)) in Hc', Hb'.
  fold after in Hc', Hb'.
  rewrite togglePageStatus_length in Hc', Hb'.
  rewrite status_of_toggle in Hc', Hb'.
  rewrite decide_True in Hc', Hb' by done.
  rewrite Hc, Hb, Hc', Hb'.
  destruct (status_of (simplifiedPages pages) n); simpl; intuition congruence.
Qed.

Lemma smartStats_toggle_flips_witness :
  1 ∈ Stats.doubleBWSheets (smartStats (analyzeFile false [([], "", false); ([], "", false)]))
  ∨ 1 ∈ Stats.mixedBWPages (smartStats (analyzeFile false [([], "", false); ([], "", false)]))
  ↔ 1 ∈ Stats.doubleColorSheets
          (smartStats (togglePageStatus 1 (analyzeFile false [([], "", false); ([], "", false)])))
    ∨ 1 ∈ Stats.mixedColorPages
            (smartStats (togglePageStatus 1 (analyzeFile false [([], "", false); ([], "", false)]))).
Proof.
  assert (1 ∈ PageData.pageNumber <$> analyzeFile false [([], "", false); ([], "", false)]) as Hin
    by (vm_compute; left).
  pose proof (smartStats_toggle_flips (analyzeFile false [([], "", false); ([], "", false)]) 1
                Hin ltac:(vm_compute; split; discriminate)) as [_ Hbw].
  exact Hbw.
Defined.

(** ** The filtered views of the app and the counts of the sidebar *)

Lemma targetPageNumbers_elem_of stats c x :
  x ∈ targetPageNumbers stats c ↔
  match c with
  | view_all => False
  | view_mixed_color => x ∈ pages_of MixedColor stats
  | view_mixed_bw => x ∈ pages_of MixedBW stats
  | view_double_color => x ∈ pages_of DoubleColor stats
  | view_double_bw => x ∈ pages_of DoubleBW stats
  end.
Proof. destruct c; simpl; [apply elem_of_nil|done..]. Qed.

Lemma filteredPages_elem_of pages c p :
  c ≠ view_all →
  p ∈ filteredPages pages c ↔
  p ∈ pages ∧ PageData.pageNumber p ∈ targetPageNumbers (smartStats pages) c.
Proof.
  intros Hc. destruct c; [done|..]; unfold filteredPages; cbv zeta;
    rewrite list_elem_of_filter, new_Set_elem_of; tauto.
Qed.

(** The view whose array is the given bucket. *)
Lemma view_of_bucket k :
  ∃ c, c ≠ view_all ∧ ∀ stats x,
    x ∈ targetPageNumbers stats c ↔ x ∈ pages_of k stats.
Proof.
  destruct k;
    [exists view_double_color|exists view_double_bw
    |exists view_mixed_color|exists view_mixed_bw]; done.
Qed.

(** X10. Every view is a sub-list of the page list in the same order.  A
    page whose number lies in [1 .. pages.length] is shown in exactly one
    of the four category views; a page whose number lies outside is shown
    in none of them. *)
Theorem filteredPages_partition (pages : list PageData.t) (p : PageData.t) :
  p ∈ pages →
  (∀ c, filteredPages pages c `sublist_of` pages) ∧
  (1 ≤ PageData.pageNumber p ≤ Z.of_nat (length pages) →
   ∃ c, c ≠ view_all ∧ p ∈ filteredPages pages c ∧
        ∀ c', c' ≠ view_all → p ∈ filteredPages pages c' → c' = c) ∧
  (¬ 1 ≤ PageData.pageNumber p ≤ Z.of_nat (length pages) →
   ∀ c, c ≠ view_all → ¬ p ∈ filteredPages pages c).
Proof.
  intros Hin.
  pose proof (λ k, smartStats_filed pages k (PageData.pageNumber p)) as Hfiled.
  split_and!.
  - intros c. destruct c; [done|..]; apply sublist_filter.
  - intros Hrange.
    destruct (view_of_bucket
                (bucket_of (status_of (simplifiedPages pages))
                   (Z.of_nat (length pages)) (PageData.pageNumber p)))
      as (c & Hc & Hview).
    exists c. split_and!; [done| |].
    + apply filteredPages_elem_of; [done|]. split; [done|].
      apply Hview, Hfiled. done.
    + intros c' Hc' [_ Hp]%filteredPages_elem_of; [|done].
      apply targetPageNumbers_elem_of in Hp.
      pose proof (proj2 (Hfiled _) (conj Hrange eq_refl)) as Hk.
      apply Hview, targetPageNumbers_elem_of in Hk.
      destruct c', c; try done;
        repeat match goal with
               | H : _ ∈ pages_of _ _ |- _ => apply Hfiled in H as [_ H]
               end; congruence.
  - intros Hout c Hc [_ Hp]%filteredPages_elem_of; [|done].
    apply targetPageNumbers_elem_of in Hp.
    destruct c; try done; apply Hfiled in Hp as [? _]; done.
Qed.

Lemma filteredPages_partition_witness :
  ∃ c, c ≠ view_all
       ∧ analyzed_page 2 [] "" ∈ filteredPages (analyzeFile false [([], "", false); ([], "", false)]) c
       ∧ ∀ c', c' ≠ view_all →
               analyzed_page 2 [] "" ∈ filteredPages (analyzeFile false [([], "", false); ([], "", false)]) c' →
               c' = c.
Proof.
  assert (analyzed_page 2 [] "" ∈ analyzeFile false [([], "", false); ([], "", false)]) as Hin
    by (right; left).
  destruct (filteredPages_partition (analyzeFile false [([], "", false); ([], "", false)])
              (analyzed_page 2 [] "") Hin) as (_ & Hone & _).
  apply Hone. simpl. lia.
Defined.

Lemma status_of_simplified_unique pages p :
  NoDup (PageData.pageNumber <$> pages) → p ∈ pages →
  status_of (simplifiedPages pages) (PageData.pageNumber p) = effective_color p.
Proof.
  intros Hnd Hin. apply status_of_unique.
  - unfold simplifiedPages. rewrite <- list_fmap_compose.
    by erewrite list_fmap_ext; [exact Hnd|].
  - unfold simplifiedPages. apply list_elem_of_fmap. by exists p.
Qed.

(** X11. When the page numbers are distinct, every page shown in one of
    the two colour views has colour as its effective status, and every
    page shown in one of the two B&W views has B&W. *)
Theorem filteredPages_status (pages : list PageData.t) (p : PageData.t) :
  NoDup (PageData.pageNumber <$> pages) →
  (p ∈ filteredPages pages view_mixed_color
   ∨ p ∈ filteredPages pages view_double_color → effective_color p = true) ∧
  (p ∈ filteredPages pages view_mixed_bw
   ∨ p ∈ filteredPages pages view_double_bw → effective_color p = false).
Proof.
  intros Hnd.
  destruct (calculateSmartSplitStats_color_side_aux (simplifiedPages pages)
              (Z.of_nat (length pages)) (PageData.pageNumber p)) as [Hc Hb].
  fold (smartStats pages) in Hc, Hb.
  split.
  - intros Hview.
    assert (p ∈ pages ∧
            (PageData.pageNumber p ∈ Stats.doubleColorSheets (smartStats pages)
             ∨ PageData.pageNumber p ∈ Stats.mixedColorPages (smartStats pages)))
      as [Hin Hside].
    { destruct Hview as [[? ?]%filteredPages_elem_of
                        |[? ?]%filteredPages_elem_of]; auto. }
    apply Hc in Hside as [_ Hstatus].
    by rewrite status_of_simplified_unique in Hstatus.
  - intros Hview.
    assert (p ∈ pages ∧
            (PageData.pageNumber p ∈ Stats.doubleBWSheets (smartStats pages)
             ∨ PageData.pageNumber p ∈ Stats.mixedBWPages (smartStats pages)))
      as [Hin Hside].
    { destruct Hview as [[? ?]%filteredPages_elem_of
                        |[? ?]%filteredPages_elem_of]; auto. }
    apply Hb in Hside as [_ Hstatus].
    by rewrite status_of_simplified_unique in Hstatus.
Qed.

Lemma filteredPages_status_witness :
  analyzed_page 1 ["255"; "000"; "000"; "255"]%byte ""
    ∈ filteredPages
        (analyzeFile false [(["255"; "000"; "000"; "255"]%byte, "", false); ([], "", false)])
        view_mixed_color
  ∧ effective_color (analyzed_page 1 ["255"; "000"; "000"; "255"]%byte "") = true.
Proof.
  assert (analyzed_page 1 ["255"; "000"; "000"; "255"]%byte ""
            ∈ filteredPages
                (analyzeFile false [(["255"; "000"; "000"; "255"]%byte, "", false); ([], "", false)])
                view_mixed_color) as Hin.
  { apply filteredPages_elem_of; [done|]. split; [left|].
    vm_compute. left. }
  split; [exact Hin|].
  apply (filteredPages_status
           (analyzeFile false [(["255"; "000"; "000"; "255"]%byte, "", false); ([], "", false)])).
  - vm_compute. repeat constructor; rewrite ?elem_of_cons, ?elem_of_nil; lia.
  - by left.
Defined.

(** The four arrays, one after the other, are a rearrangement of
    [1 .. totalPages]. *)
Lemma calculateSmartSplitStats_Permutation pages totalPages :
  let r := calculateSmartSplitStats pages totalPages in
  Stats.doubleColorSheets r ++ Stats.doubleBWSheets r
    ++ Stats.mixedColorPages r ++ Stats.mixedBWPages r
  ≡ₚ seqZ 1 totalPages.
Proof.
  intros r.
  pose proof (λ k q, calculateSmartSplitStats_filed pages totalPages k q)
    as Hmem. fold r in Hmem.
  pose proof (λ k, strict_sorted_NoDup _
                     (calculateSmartSplitStats_sorted pages totalPages k))
    as Hnd. fold r in Hnd.
  change (pages_of DoubleColor r ++ pages_of DoubleBW r
            ++ pages_of MixedColor r ++ pages_of MixedBW r
          ≡ₚ seqZ 1 totalPages).
  apply NoDup_Permutation.
  - rewrite !NoDup_app. split_and!; try apply Hnd;
      intros x Hx; rewrite ?elem_of_app; intros Hy;
      apply Hmem in Hx as [_ Hx];
      repeat match goal with
             | H : _ ∨ _ |- _ => destruct H as [H|H]
             | H : _ ∈ pages_of _ _ |- _ => apply Hmem in H as [_ H]
             end; congruence.
  - apply NoDup_seqZ.
  - intros x. rewrite !elem_of_app, !Hmem, elem_of_seqZ.
    destruct (bucket_of (status_of pages) totalPages x);
      intuition (congruence || lia).
Qed.

(** X12. The counts the sidebar shows for the four categories add up to
    the count it shows for "All Pages", whatever the page list holds. *)
Theorem displayData_counts_total (pages : list PageData.t) :
  let stats := smartStats pages in
  (displayData_count pages stats view_mixed_color
   + displayData_count pages stats view_mixed_bw
   + displayData_count pages stats view_double_color
   + displayData_count pages stats view_double_bw
   = displayData_count pages stats view_all)%nat.
Proof.
  intros stats. cbn [displayData_count targetPageNumbers].
  pose proof (calculateSmartSplitStats_Permutation (simplifiedPages pages)
                (Z.of_nat (length pages))) as Hperm.
  cbv zeta in Hperm. fold (smartStats pages) in Hperm. fold stats in Hperm.
  apply Permutation_length in Hperm.
  rewrite !length_app, length_seqZ in Hperm. lia.
Qed.

Lemma fmap_filter_pageNumber (Q : Z → Prop) `{!∀ x, Decision (Q x)}
    (pages : list PageData.t) :
  PageData.pageNumber <$> filter (λ p, Q (PageData.pageNumber p)) pages
  = filter Q (PageData.pageNumber <$> pages).
Proof.
  induction pages as [|p pages IH]; [done|].
  rewrite fmap_cons, !filter_cons.
  destruct (decide (Q (PageData.pageNumber p))); rewrite ?fmap_cons;
    by f_equal.
Qed.

(** X13. For a well-numbered page list the count the sidebar shows for a
    category is the number of pages the grid shows in that view. *)
Theorem displayData_count_view (pages : list PageData.t) (c : ViewCategory) :
  well_numbered pages →
  displayData_count pages (smartStats pages) c = length (filteredPages pages c).
Proof.
  intros Hwn.
  assert (c = view_all ∨ c ≠ view_all) as [->|Hc]
    by (destruct c; auto; right; discriminate).
  { done. }
  assert (displayData_count pages (smartStats pages) c
          = length (targetPageNumbers (smartStats pages) c)) as ->
    by (by destruct c).
  assert (filteredPages pages c
          = filter (λ p, PageData.pageNumber p
                         ∈ JS.new_Set (targetPageNumbers (smartStats pages) c))
              pages) as -> by (by destruct c).
  rewrite <- (length_fmap PageData.pageNumber (filter _ pages)).
  pose proof (fmap_filter_pageNumber
                (λ x, x ∈ JS.new_Set (targetPageNumbers (smartStats pages) c))
                pages) as Hff.
  cbv beta in Hff. rewrite Hff, Hwn. apply Permutation_length, NoDup_Permutation.
  - destruct c; [done|..]; simpl; apply strict_sorted_NoDup;
      [apply (calculateSmartSplitStats_sorted _ _ MixedColor)
      |apply (calculateSmartSplitStats_sorted _ _ MixedBW)
      |apply (calculateSmartSplitStats_sorted _ _ DoubleColor)
      |apply (calculateSmartSplitStats_sorted _ _ DoubleBW)].
  - apply NoDup_filter, NoDup_seqZ.
  - intros x. rewrite list_elem_of_filter, new_Set_elem_of, elem_of_seqZ.
    split; [|tauto]. intros Hx. split; [done|].
    apply targetPageNumbers_elem_of in Hx.
    destruct c; [done|..]; apply smartStats_filed in Hx as [? _]; lia.
Qed.

Lemma displayData_count_view_witness :
  displayData_count (analyzeFile false [([], "", false); ([], "", false); ([], "", false)])
    (smartStats (analyzeFile false [([], "", false); ([], "", false); ([], "", false)])) view_double_bw
  = length (filteredPages (analyzeFile false [([], "", false); ([], "", false); ([], "", false)])
              view_double_bw).
Proof.
  apply displayData_count_view. reflexivity.
Defined.

(** X14. [formatPageRanges] depends only on which numbers occur in its
    argument: neither their order nor their multiplicity matters. *)
Theorem formatPageRanges_same_elements (l1 l2 : list Z) :
  (∀ x, x ∈ l1 ↔ x ∈ l2) → formatPageRanges l1 = formatPageRanges l2.
Proof.
  intros Hset.
  assert (JS.sort_numeric (JS.new_Set l1) = JS.sort_numeric (JS.new_Set l2))
    as Hsorted.
  { apply strict_sorted_ext; [apply sort_numeric_strict, new_Set_NoDup..|].
    intros x. by rewrite !sort_numeric_elem_of, !new_Set_elem_of. }
  unfold formatPageRanges. cbv zeta. rewrite Hsorted.
  destruct l1 as [|x1 l1], l2 as [|x2 l2]; try done.
  - exfalso. apply (elem_of_nil x2), Hset. left.
  - exfalso. apply (elem_of_nil x1), Hset. left.
Qed.

Lemma formatPageRanges_same_elements_witness :
  formatPageRanges [3; 1; 2; 3; 1] = formatPageRanges [1; 2; 3].
Proof.
  apply formatPageRanges_same_elements.
  intros x. rewrite !elem_of_cons, !elem_of_nil. lia.
Defined.

(** ** Zoom navigation in the app *)

Lemma findIndex_cases {A} (P : A → Prop) `{!∀ x, Decision (P x)} (l : list A) :
  (findIndex P l = -1 ∧ Forall (λ x, ¬ P x) l)
  ∨ ∃ k x, findIndex P l = Z.of_nat k ∧ l !! k = Some x ∧ P x
           ∧ ∀ j y, l !! j = Some y → (j < k)%nat → ¬ P y.
Proof.
  unfold findIndex. destruct (list_find P l) as [[k x]|] eqn:Hfind.
  - right. exists k, x. apply list_find_Some in Hfind. tauto.
  - left. split; [done|]. by apply (list_find_None P l).
Qed.

Lemma findIndex_at {A} (P : A → Prop) `{!∀ x, Decision (P x)} (l : list A) k x :
  l !! k = Some x → P x → (∀ j y, l !! j = Some y → (j < k)%nat → ¬ P y) →
  findIndex P l = Z.of_nat k.
Proof.
  intros Hk HP Hmin. unfold findIndex.
  by rewrite (proj2 (list_find_Some P l k x)).
Qed.

Lemma array_get_nat {A} (l : list A) (k : nat) :
  array_get l (Z.of_nat k) = l !! k.
Proof.
  unfold array_get. rewrite decide_True by lia. by rewrite Nat2Z.id.
Qed.

(** X15. The zoom handlers never read outside the view (no [TypeError]),
    and each either leaves the zoom as it is or moves it to a page of the
    current view. *)
Theorem zoom_handlers_stay_in_view
    (view : list PageData.t) (zoomedPageNumber : option Z) :
  (∃ z, handleNextZoom view zoomedPageNumber = Some z ∧
        (z = zoomedPageNumber ∨ ∃ p, p ∈ view ∧ z = Some (PageData.pageNumber p)))
  ∧
  (∃ z, handlePrevZoom view zoomedPageNumber = Some z ∧
        (z = zoomedPageNumber ∨ ∃ p, p ∈ view ∧ z = Some (PageData.pageNumber p))).
Proof.
  unfold handleNextZoom, handlePrevZoom. cbv zeta.
  destruct (findIndex_cases (is_zoomed zoomedPageNumber) view)
    as [[-> _]|(k & x & -> & Hk & _)].
  - rewrite decide_False by lia. rewrite decide_False by lia.
    split; eexists; (split; [reflexivity|by left]).
  - split.
    + case_decide as Hnext; [|eauto].
      replace (Z.of_nat k + 1) with (Z.of_nat (S k)) by lia.
      rewrite array_get_nat.
      destruct (lookup_lt_is_Some_2 view (S k)) as [q Hq]; [lia|].
      rewrite Hq. simpl. eexists. split; [done|]. right. exists q.
      split; [|done]. by eapply list_elem_of_lookup_2.
    + case_decide as Hprev; [|eauto].
      destruct k as [|j]; [lia|].
      replace (Z.of_nat (S j) - 1) with (Z.of_nat j) by lia.
      rewrite array_get_nat.
      destruct (lookup_lt_is_Some_2 view j) as [q Hq].
      { apply lookup_lt_Some in Hk. lia. }
      rewrite Hq. simpl. eexists. split; [done|]. right. exists q.
      split; [|done]. by eapply list_elem_of_lookup_2.
Qed.

Lemma findIndex_zoomed view k p :
  NoDup (PageData.pageNumber <$> view) → view !! k = Some p →
  findIndex (is_zoomed (Some (PageData.pageNumber p))) view = Z.of_nat k.
Proof.
  intros Hnd Hk. apply (findIndex_at _ _ k p); [done|done|].
  intros j y Hj Hlt Hzoom. unfold is_zoomed in Hzoom.
  assert (j = k); [|lia].
  apply (NoDup_lookup _ j k (PageData.pageNumber p) Hnd).
  - rewrite list_lookup_fmap, Hj. simpl. congruence.
  - by rewrite list_lookup_fmap, Hk.
Qed.

(** X16. In a view with distinct page numbers, for two pages [p] and [q]
    shown one after the other: "next" from [p] zooms to [q], "previous"
    from [q] zooms back to [p], and both buttons are offered. *)
Theorem zoom_next_prev (view : list PageData.t) (k : nat) (p q : PageData.t) :
  NoDup (PageData.pageNumber <$> view) →
  view !! k = Some p → view !! S k = Some q →
  handleNextZoom view (Some (PageData.pageNumber p))
  = Some (Some (PageData.pageNumber q)) ∧
  handlePrevZoom view (Some (PageData.pageNumber q))
  = Some (Some (PageData.pageNumber p)) ∧
  hasNextZoom view (Some (PageData.pageNumber p)) = true ∧
  hasPrevZoom view (Some (PageData.pageNumber q)) = true.
Proof.
  intros Hnd Hp Hq.
  pose proof (lookup_lt_Some _ _ _ Hq) as Hlen.
  unfold handleNextZoom, handlePrevZoom, hasNextZoom, hasPrevZoom. cbv zeta.
  rewrite (findIndex_zoomed view k p), (findIndex_zoomed view (S k) q) by done.
  split_and!.
  - rewrite decide_True by lia.
    replace (Z.of_nat k + 1) with (Z.of_nat (S k)) by lia.
    by rewrite array_get_nat, Hq.
  - rewrite decide_True by lia.
    replace (Z.of_nat (S k) - 1) with (Z.of_nat k) by lia.
    by rewrite array_get_nat, Hp.
  - rewrite bool_decide_eq_true_2 by done.
    rewrite bool_decide_eq_true_2 by lia. done.
  - rewrite bool_decide_eq_true_2 by done.
    rewrite bool_decide_eq_true_2 by lia. done.
Qed.

Lemma zoom_next_prev_witness :
  handleNextZoom (analyzeFile false [([], "", false); ([], "", false); ([], "", false)]) (Some 2)
  = Some (Some 3)
  ∧ handlePrevZoom (analyzeFile false [([], "", false); ([], "", false); ([], "", false)]) (Some 3)
    = Some (Some 2).
Proof.
  assert (NoDup (PageData.pageNumber
                   <$> analyzeFile false [([], "", false); ([], "", false); ([], "", false)])) as Hnd.
  { vm_compute. repeat constructor; rewrite ?elem_of_cons, ?elem_of_nil; lia. }
  destruct (zoom_next_prev (analyzeFile false [([], "", false); ([], "", false); ([], "", false)]) 1
              (analyzed_page 2 [] "") (analyzed_page 3 [] "")
              Hnd eq_refl eq_refl) as (Hnext & Hprev & _).
  exact (conj Hnext Hprev).
Defined.

(** X17. When the zoomed page is not in the current, non-empty view (it
    left the view because its status was toggled in the viewer),
    [hasNextZoom] is true although [handleNextZoom] keeps the zoom where
    it is; [hasPrevZoom] is false and [handlePrevZoom] does nothing. *)
Theorem zoom_page_outside_view (view : list PageData.t) (n : Z) :
  view ≠ [] → ¬ n ∈ PageData.pageNumber <$> view →
  hasNextZoom view (Some n) = true ∧
  handleNextZoom view (Some n) = Some (Some n) ∧
  hasPrevZoom view (Some n) = false ∧
  handlePrevZoom view (Some n) = Some (Some n).
Proof.
  intros Hview Hout.
  assert (findIndex (is_zoomed (Some n)) view = -1) as Hidx.
  { destruct (findIndex_cases (is_zoomed (Some n)) view)
      as [[? _]|(k & x & _ & Hk & Hx & _)]; [done|].
    exfalso. apply Hout, list_elem_of_fmap. exists x.
    unfold is_zoomed in Hx. split; [congruence|].
    by eapply list_elem_of_lookup_2. }
  assert (0 < length view)%nat by (destruct view; [done|simpl; lia]).
  unfold hasNextZoom, hasPrevZoom, handleNextZoom, handlePrevZoom.
  cbv zeta. rewrite Hidx. split_and!.
  - rewrite bool_decide_eq_true_2 by done.
    by rewrite bool_decide_eq_true_2 by lia.
  - by rewrite decide_False by lia.
  - rewrite bool_decide_eq_true_2 by done.
    by rewrite bool_decide_eq_false_2 by lia.
  - by rewrite decide_False by lia.
Qed.

Lemma zoom_page_outside_view_witness :
  hasNextZoom (analyzeFile false [([], "", false); ([], "", false)]) (Some 7) = true
  ∧ handleNextZoom (analyzeFile false [([], "", false); ([], "", false)]) (Some 7) = Some (Some 7).
Proof.
  destruct (zoom_page_outside_view (analyzeFile false [([], "", false); ([], "", false)]) 7)
    as (Hhas & Hnext & _).
  - discriminate.
  - change (¬ 7 ∈ [1; 2]). rewrite !elem_of_cons, elem_of_nil. lia.
  - exact (conj Hhas Hnext).
Defined.

(** ** Selection in the thumbnail grid *)

Lemma select_range_step displayedPages end_ i newSelection :
  select_range displayedPages end_ i newSelection =
  if decide (i ≤ end_) then
    match array_get displayedPages i with
    | Some p =>
        select_range displayedPages end_ (i + 1)
          (JS.Set_add newSelection (PageData.pageNumber p))
    | None => None
    end
  else Some newSelection.
Proof.
  rewrite select_range_equation_1.
  destruct (decide (i ≤ end_)); [|reflexivity]. simpl.
  destruct (array_get displayedPages i); reflexivity.
Qed.

(** The range loop adds the numbers of the pages at the indices
    [i .. end_], and reads inside the array when [end_] is a valid index. *)
Lemma select_range_spec displayedPages end_ (bound : nat) : ∀ i newSelection,
  (Z.to_nat (end_ + 1 - i) ≤ bound)%nat →
  0 ≤ i → end_ < Z.of_nat (length displayedPages) →
  ∃ sel, select_range displayedPages end_ i newSelection = Some sel ∧
         ∀ x, x ∈ sel ↔
              x ∈ newSelection
              ∨ ∃ (k : nat) p, displayedPages !! k = Some p
                              ∧ PageData.pageNumber p = x
                              ∧ i ≤ Z.of_nat k ≤ end_.
Proof.
  induction bound as [|bound IH]; intros i sel0 Hbound Hi Hend;
    rewrite select_range_step;
    destruct (decide (i ≤ end_)) as [Hle|Hgt]; try lia.
  - exists sel0. split; [done|]. intros x. split; [auto|].
    intros [?|(k & p & _ & _ & ?)]; [done|lia].
  - unfold array_get. rewrite decide_True by done.
    destruct (lookup_lt_is_Some_2 displayedPages (Z.to_nat i)) as [p Hp];
      [lia|].
    rewrite Hp.
    destruct (IH (i + 1) (JS.Set_add sel0 (PageData.pageNumber p)))
      as (sel & Heq & Hsel); [lia..|].
    exists sel. split; [done|]. intros x.
    rewrite Hsel, Set_add_elem_of. split.
    + intros [[?| ->]|(k & q & Hk & Hq & Hrange)].
      * by left.
      * right. exists (Z.to_nat i), p. split_and!; (done || lia).
      * right. exists k, q. split_and!; (done || lia).
    + intros [?|(k & q & Hk & Hq & Hrange)]; [auto|].
      destruct (decide (Z.of_nat k = i)) as [Hki|Hki].
      * left; right. rewrite <- Hki, Nat2Z.id in Hp. congruence.
      * right. exists k, q. split_and!; (done || lia).
  - exists sel0. split; [done|]. intros x. split; [auto|].
    intros [?|(k & p & _ & _ & ?)]; [done|lia].
Qed.

Lemma findIndex_elem_of {A} (P : A → Prop) `{!∀ x, Decision (P x)} (l : list A) x :
  x ∈ l → P x →
  ∃ k y, findIndex P l = Z.of_nat k ∧ l !! k = Some y ∧ P y.
Proof.
  intros Hin HP.
  destruct (findIndex_cases P l) as [[_ Hnone]|(k & y & Hk & Hy & HPy & _)].
  - rewrite Forall_forall in Hnone. by destruct (Hnone x Hin).
  - eauto.
Qed.

(** X18. A shift-click on a displayed page, when the page clicked last is
    displayed too, adds to the selection the pages displayed between the
    two (both included) and nothing else, keeps what was selected, makes
    the clicked page the new anchor, and toggles no page. *)
Theorem handlePageClick_shift_range
    (displayedPages : list PageData.t) (st : selection) (pageNumber last : Z)
    (event : MouseEvent) :
  shiftKey event = true → lastSelectedPage st = Some last →
  pageNumber ∈ PageData.pageNumber <$> displayedPages →
  last ∈ PageData.pageNumber <$> displayedPages →
  let currentIndex :=
    findIndex (λ p, PageData.pageNumber p = pageNumber) displayedPages in
  let lastIndex := findIndex (is_zoomed (Some last)) displayedPages in
  ∃ sel,
    handlePageClick displayedPages st pageNumber event
    = Some (mk_selection sel (Some pageNumber), None) ∧
    (∀ x, x ∈ sel ↔
          x ∈ selectedPages st
          ∨ ∃ (k : nat) p, displayedPages !! k = Some p
                          ∧ PageData.pageNumber p = x
                          ∧ Z.min currentIndex lastIndex ≤ Z.of_nat k
                            ≤ Z.max currentIndex lastIndex) ∧
    pageNumber ∈ sel ∧ last ∈ sel.
Proof.
  intros Hshift Hlast (pc & Hpc & Hinc)%list_elem_of_fmap
    (pl & Hpl & Hinl)%list_elem_of_fmap currentIndex lastIndex.
  destruct (findIndex_elem_of (λ p, PageData.pageNumber p = pageNumber)
              displayedPages pc Hinc (eq_sym Hpc))
    as (kc & yc & Hkc & Hyc & HPc).
  destruct (findIndex_elem_of (is_zoomed (Some last)) displayedPages pl Hinl)
    as (kl & yl & Hkl & Hyl & HPl); [unfold is_zoomed; congruence|].
  fold currentIndex in Hkc. fold lastIndex in Hkl.
  pose proof (lookup_lt_Some _ _ _ Hyc). pose proof (lookup_lt_Some _ _ _ Hyl).
  destruct (select_range_spec displayedPages (Z.max currentIndex lastIndex)
              (Z.to_nat (Z.max currentIndex lastIndex + 1
                         - Z.min currentIndex lastIndex))
              (Z.min currentIndex lastIndex) (selectedPages st))
    as (sel & Heq & Hsel); [lia..|].
  exists sel. split_and!.
  - unfold handlePageClick. cbv zeta. rewrite Hshift, Hlast.
    rewrite bool_decide_eq_true_2 by done. simpl andb. cbv iota.
    fold currentIndex lastIndex.
    rewrite decide_True by lia. by rewrite Heq.
  - exact Hsel.
  - apply Hsel. right. exists kc, yc. split_and!; (done || lia).
  - apply Hsel. right. exists kl, yl. unfold is_zoomed in HPl.
    split_and!; (done || congruence || lia).
Qed.

Lemma handlePageClick_shift_range_witness :
  ∃ sel,
    handlePageClick (analyzeFile false [([], "", false); ([], "", false); ([], "", false); ([], "", false)])
      (mk_selection [] (Some 1)) 3 (mk_MouseEvent true false false)
    = Some (mk_selection sel (Some 3), None)
    ∧ 3 ∈ sel ∧ 1 ∈ sel.
Proof.
  destruct (handlePageClick_shift_range
              (analyzeFile false [([], "", false); ([], "", false); ([], "", false); ([], "", false)])
              (mk_selection [] (Some 1)) 3 1 (mk_MouseEvent true false false)
              eq_refl eq_refl)
    as (sel & Heq & _ & H3 & H1).
  - change (3 ∈ [1; 2; 3; 4]). rewrite !elem_of_cons. lia.
  - change (1 ∈ [1; 2; 3; 4]). rewrite !elem_of_cons. lia.
  - exists sel. exact (conj Heq (conj H3 H1)).
Defined.

Lemma Set_delete_elem_of s x y : y ∈ Set_delete s x ↔ y ∈ s ∧ y ≠ x.
Proof. unfold Set_delete. rewrite list_elem_of_filter. tauto. Qed.

(** X19. A ctrl- or cmd-click (without an effective shift-click) flips
    the membership of the clicked page in the selection and toggles no
    page status; a second such click restores the selection as a set. *)
Theorem handlePageClick_ctrl_twice
    (displayedPages : list PageData.t) (st : selection) (pageNumber : Z)
    (event : MouseEvent) :
  shiftKey event = false → ctrlKey event || metaKey event = true →
  ∃ sel1 sel2,
    handlePageClick displayedPages st pageNumber event
    = Some (mk_selection sel1 (Some pageNumber), None) ∧
    handlePageClick displayedPages (mk_selection sel1 (Some pageNumber))
      pageNumber event
    = Some (mk_selection sel2 (Some pageNumber), None) ∧
    (∀ x, x ∈ sel1 ↔
          (x ≠ pageNumber ∧ x ∈ selectedPages st)
          ∨ (x = pageNumber ∧ ¬ pageNumber ∈ selectedPages st)) ∧
    (∀ x, x ∈ sel2 ↔ x ∈ selectedPages st).
Proof.
  intros Hshift Hctrl. unfold handlePageClick. cbv zeta.
  rewrite Hshift, Hctrl. simpl.
  destruct (decide (pageNumber ∈ selectedPages st)) as [Hin|Hout].
  - exists (Set_delete (selectedPages st) pageNumber),
      (JS.Set_add (Set_delete (selectedPages st) pageNumber) pageNumber).
    rewrite decide_False by (rewrite Set_delete_elem_of; tauto).
    split_and!; [reflexivity..| |].
    + intros x. rewrite Set_delete_elem_of. tauto.
    + intros x. rewrite Set_add_elem_of, Set_delete_elem_of.
      destruct (decide (x = pageNumber)) as [->|]; tauto.
  - exists (JS.Set_add (selectedPages st) pageNumber),
      (Set_delete (JS.Set_add (selectedPages st) pageNumber) pageNumber).
    rewrite decide_True by (rewrite Set_add_elem_of; tauto).
    split_and!; [reflexivity..| |].
    + intros x. rewrite Set_add_elem_of.
      destruct (decide (x = pageNumber)) as [->|]; tauto.
    + intros x. rewrite Set_delete_elem_of, Set_add_elem_of.
      destruct (decide (x = pageNumber)) as [->|]; tauto.
Qed.

Lemma handlePageClick_ctrl_twice_witness :
  ∃ sel1 sel2,
    handlePageClick [] (mk_selection [4; 9] None) 9
      (mk_MouseEvent false true false)
    = Some (mk_selection sel1 (Some 9), None)
    ∧ handlePageClick [] (mk_selection sel1 (Some 9)) 9
        (mk_MouseEvent false true false)
      = Some (mk_selection sel2 (Some 9), None)
    ∧ ∀ x, x ∈ sel2 ↔ x ∈ [4; 9].
Proof.
  destruct (handlePageClick_ctrl_twice [] (mk_selection [4; 9] None) 9
              (mk_MouseEvent false true false) eq_refl eq_refl)
    as (sel1 & sel2 & H1 & H2 & _ & Hsame).
  exists sel1, sel2. exact (conj H1 (conj H2 Hsame)).
Defined.

(** X20. "Select visible" followed by a batch update forces the chosen
    colour on exactly the pages whose number is displayed, leaves every
    other record as it is, and empties the selection. *)
Theorem select_all_then_batch
    (pages displayedPages : list PageData.t) (st : selection) (isColor : bool) :
  let st1 := handleSelectAllInView displayedPages st in
  let call := (handleBatchUpdate st1 isColor).2 in
  batchUpdatePageStatus call.1 call.2 pages
  = (λ p, if decide (PageData.pageNumber p
                     ∈ PageData.pageNumber <$> displayedPages)
          then with_isColorUserForced p isColor else p) <$> pages
  ∧ (handleBatchUpdate st1 isColor).1 = mk_selection [] None
  ∧ ∀ p, p ∈ displayedPages → p ∈ pages →
         Forall (λ p', PageData.pageNumber p' = PageData.pageNumber p →
                       effective_color p' = isColor)
           (batchUpdatePageStatus call.1 call.2 pages).
Proof.
  intros st1 call.
  assert (batchUpdatePageStatus call.1 call.2 pages
          = (λ p, if decide (PageData.pageNumber p
                             ∈ PageData.pageNumber <$> displayedPages)
                  then with_isColorUserForced p isColor else p) <$> pages)
    as Heq.
  { unfold call, st1. simpl. rewrite batchUpdatePageStatus_map.
    apply list_fmap_ext. intros k p _.
    destruct (decide (PageData.pageNumber p
                      ∈ PageData.pageNumber <$> displayedPages)) as [Hin|Hout].
    - rewrite decide_True; [done|].
      by apply (foldl_Set_add_elem_of _ []); right.
    - rewrite decide_False; [done|].
      rewrite foldl_Set_add_elem_of, elem_of_nil. tauto. }
  split_and!; [done|done|].
  intros p Hdisp Hin. rewrite Heq. apply Forall_fmap, Forall_forall.
  intros p' _ Hnum. simpl in *.
  destruct (decide (PageData.pageNumber p'
                    ∈ PageData.pageNumber <$> displayedPages)) as [?|Hout].
  - simpl in Hnum. done.
  - exfalso. apply Hout. rewrite Hnum.
    apply list_elem_of_fmap. by exists p.
Qed.

(** ** The "None" placeholder of formatPageRanges *)

Lemma range_token_head start prev :
  ∃ b u, range_token start prev = String b u ∧ sign_or_digit b.
Proof.
  destruct (Number_toString_head start) as (b & u & Hs & Hb).
  unfold range_token. case_decide; rewrite Hs; simpl; eauto.
Qed.

Lemma join_head sep x l b u :
  x = String b u → ∃ u', JS.join sep (x :: l) = String b u'.
Proof. intros ->. destruct l; simpl; eauto. Qed.

Lemma formatPageRanges_head x xs :
  ∃ b u, formatPageRanges (x :: xs) = String b u ∧ sign_or_digit b.
Proof.
  unfold formatPageRanges. simpl decide. cbv iota zeta.
  assert (x ∈ JS.sort_numeric (JS.new_Set (x :: xs))) as Hx.
  { rewrite sort_numeric_elem_of, new_Set_elem_of. left. }
  destruct (JS.sort_numeric (JS.new_Set (x :: xs))) as [|s0 rest].
  { by apply elem_of_nil in Hx. }
  destruct (ranges_loop_head rest s0 s0) as (p & tl & ->).
  destruct (range_token_head s0 p) as (b & u & Htoken & Hb).
  destruct (join_head ", " _ tl b u Htoken) as [u' ->]. eauto.
Qed.

(** X21. [formatPageRanges] returns ["None"] for the empty collection
    only: the result for a non-empty one starts with a decimal digit or a
    minus sign. *)
Theorem formatPageRanges_None (pageNumbers : list Z) :
  (formatPageRanges pageNumbers = "None" ↔ pageNumbers = []) ∧
  (pageNumbers ≠ [] →
   ∃ b u, formatPageRanges pageNumbers = String b u ∧
          (b = "-"%char ∨ decimal_digit b)).
Proof.
  destruct pageNumbers as [|x xs]; [done|].
  destruct (formatPageRanges_head x xs) as (b & u & Heq & Hb).
  split; [|by eauto].
  split; [|done]. rewrite Heq. intros [= -> _]. exfalso.
  destruct Hb as [Hb|Hb]; [done|]. vm_compute in Hb. lia.
Qed.
